(** * combine.py: merging Vega-Lite HTML pages into one dashboard

    A shallow embedding of [src/combine.py] and the properties of its two
    functions, [extract_spec] and [merge_html_files].

    Text.  A Python [str] is modelled by the [string] of its UTF-8 bytes:
    files are opened with [encoding='utf-8'], the regular expression is
    ASCII with [.] under [re.DOTALL], and UTF-8 never places an ASCII byte
    inside a multi-byte character, so matching over bytes and matching over
    code points select the same region.  [len] is only applied to lists. *)

From Stdlib Require Import String Ascii List Arith Bool Lia.
From Stdlib Require DecimalString DecimalNat DecimalFacts.
Import ListNotations.
Open Scope list_scope.
Open Scope string_scope.

(** [occurs_in p s]: the text [p] occurs somewhere in [s]. *)
Definition occurs_in (p s : string) : Prop :=
  exists a b, s = (a ++ p ++ b)%string.

(** ** The fragment of Python's [re] that [extract_spec] uses

    A backtracking matcher for patterns made of literal characters, one
    capturing group and the lazy [.*?] under [re.DOTALL] (where [.] matches
    every character, newlines included). *)

Module Re.

Inductive tok : Type :=
| Chr (c : ascii)      (* a literal character *)
| LazyAny              (* [.*?] with re.DOTALL *)
| GroupOpen            (* [(] *)
| GroupClose.          (* [)] *)

(** Reads the pattern text.  In Python's syntax a brace that does not
    open a repetition count is a literal character, which is the case of
    both braces of the pattern used here. *)
Fixpoint compile (r : string) : list tok :=
  match r with
  | EmptyString => []
  | String "." (String "*" (String "?" r')) => LazyAny :: compile r'
  | String "(" r' => GroupOpen :: compile r'
  | String ")" r' => GroupClose :: compile r'
  | String c r' => Chr c :: compile r'
  end.

(** The span of group 1 in the subject, as a match object records it:
    [(m.start(1), m.end(1))]. *)
Definition span : Type := (nat * nat)%type.

(** [match_here p s pos g]: match the pattern [p] against the subject
    from offset [pos], where [s] is the text from that offset on and [g]
    the span of group 1 recorded so far.  [LazyAny] first tries the rest
    of the pattern without consuming anything and, when that fails,
    consumes one more character. *)
Fixpoint match_here (p : list tok) : string -> nat -> span -> option span :=
  match p with
  | [] => fun _ _ g => Some g
  | Chr c :: p' =>
      fun s pos g =>
        match s with
        | String d s' =>
            if Ascii.eqb c d then match_here p' s' (S pos) g else None
        | EmptyString => None
        end
  | LazyAny :: p' =>
      fix lazy (s : string) (pos : nat) (g : span) {struct s} : option span :=
        match match_here p' s pos g with
        | Some r => Some r
        | None =>
            match s with
            | String _ s' => lazy s' (S pos) g
            | EmptyString => None
            end
        end
  | GroupOpen :: p' => fun s pos g => match_here p' s pos (pos, snd g)
  | GroupClose :: p' => fun s pos g => match_here p' s pos (fst g, pos)
  end.

(** A literal text as a pattern. *)
Definition lit (l : string) : list tok := map Chr (list_ascii_of_string l).

(** [re.search]: the match at the leftmost offset where one exists. *)
Fixpoint search_from (p : list tok) (s : string) (pos : nat) : option span :=
  match match_here p s pos (0, 0) with
  | Some g => Some g
  | None =>
      match s with
      | String _ s' => search_from p s' (S pos)
      | EmptyString => None
      end
  end.

Definition search (p : list tok) (s : string) : option span :=
  search_from p s 0.

(** [m.group(1)]: the slice of the subject over the recorded span. *)
Definition group1 (m : span) (s : string) : string :=
  substring (fst m) (snd m - fst m) s.

End Re.

(** ** [extract_spec] *)

Definition spec_pattern : list Re.tok :=
  Eval cbv in Re.compile "var spec = ({.*?});".

(** What follows the lazy repetition in the pattern. *)
Definition close_toks : list Re.tok := Eval cbv in Re.compile "});".

Definition extract_spec (html_content : string) : string :=
  match Re.search spec_pattern html_content with
  | Some spec_match => Re.group1 spec_match html_content
  | None => "{}"
  end.

(** The assignment pattern occurs in [s]: the opening text and, somewhere
    after it, a closing brace and semicolon. *)
Definition pattern_occurs (s : string) : Prop :=
  exists pre body post, s = pre ++ "var spec = {" ++ body ++ "};" ++ post.

(** ** The world [merge_html_files] runs in

    The function reads files, appends to a list object that its caller may
    hold, prints status lines and writes one file.  The state is threaded
    explicitly; an exception leaves the state as it was when raised. *)

(** The exceptions of the built-in calls involved.  Only the first is named
    in the source; the others stand for what [open] and [read] raise on a
    path that exists but cannot be read as UTF-8 text. *)
Inductive pyexn : Type :=
| FileNotFoundError
| PermissionError
| IsADirectoryError
| UnicodeDecodeError.

(** What [open(path, 'r', encoding='utf-8')] followed by [read()] does on a
    path: it returns the text, or raises. *)
Inductive file : Type :=
| Readable (text : string)
| Fails (e : pyexn).

(** Python list objects live in a store and are passed by address. *)
Definition loc : Type := nat.

Record world : Type := mkWorld {
  files : string -> file;
  write_fault : string -> option pyexn;   (* what [open(path, 'w')] raises *)
  heap : loc -> list string;              (* the list objects *)
  next_loc : loc;                         (* next free address *)
  stdout : list string                    (* one entry for each [print] *)
}.

(** How a computation ends: it returns, it raises, or the bound that the
    model puts on the [while] loop is reached (which [merge_total] below
    excludes). *)
Inductive outcome (A : Type) : Type :=
| Ret (a : A)
| Raise (e : pyexn)
| OutOfFuel.

Arguments Ret {A} a.
Arguments Raise {A} e.
Arguments OutOfFuel {A}.

(** A computation: from the world before to the world after and the
    outcome. *)
Definition M (A : Type) : Type := world -> world * outcome A.

Definition ret {A} (a : A) : M A := fun w => (w, Ret a).

Definition out_of_fuel {A} : M A := fun w => (w, OutOfFuel).

Definition bind {A B} (m : M A) (k : A -> M B) : M B :=
  fun w =>
    match m w with
    | (w', Ret a) => k a w'
    | (w', Raise e) => (w', Raise e)
    | (w', OutOfFuel) => (w', OutOfFuel)
    end.

Declare Scope py_scope.
Delimit Scope py_scope with py.
Notation "x <- m ;; k" := (bind m (fun x => k))
  (at level 61, m at next level, right associativity) : py_scope.
Notation "m ;;; k" := (bind m (fun _ => k))
  (at level 61, right associativity) : py_scope.
Open Scope py_scope.

(** [try: body except <class>: handler]. *)
Definition try_except {A} (body : M A) (caught : pyexn -> bool)
    (handler : M A) : M A :=
  fun w =>
    match body w with
    | (w', Raise e) => if caught e then handler w' else (w', Raise e)
    | r => r
    end.

Definition is_FileNotFoundError (e : pyexn) : bool :=
  match e with FileNotFoundError => true | _ => false end.

(** Field updates. *)
Definition set_files (w : world) (f : string -> file) : world :=
  mkWorld f (write_fault w) (heap w) (next_loc w) (stdout w).

Definition set_heap (w : world) (h : loc -> list string) (n : loc) : world :=
  mkWorld (files w) (write_fault w) h n (stdout w).

Definition set_stdout (w : world) (out : list string) : world :=
  mkWorld (files w) (write_fault w) (heap w) (next_loc w) out.

(** [with open(path, 'r', encoding='utf-8') as f: ... f.read()] *)
Definition read_file (path : string) : M string :=
  fun w =>
    match files w path with
    | Readable text => (w, Ret text)
    | Fails e => (w, Raise e)
    end.

(** [with open(path, 'w', encoding='utf-8') as f: f.write(text)]: the file
    at [path] is replaced and holds the text written.  The failure that is
    modelled is the one of [open], which leaves every file as it is; a
    failure of [f.write] after [open] has emptied the file (a full disk)
    is outside this model.  (What a later read of that file would return
    after newline translation plays no part here: the function reads
    before it writes.) *)
Definition write_file (path text : string) : M unit :=
  fun w =>
    match write_fault w path with
    | Some e => (w, Raise e)
    | None =>
        (set_files w (fun p => if String.eqb p path then Readable text
                               else files w p),
         Ret tt)
    end.

(** [print(line)] on a console that can show every line: the encoding
    error that [print] raises on a console without the characters of the
    status lines is outside this model. *)
Definition print (line : string) : M unit :=
  fun w => (set_stdout w (stdout w ++ [line])%list, Ret tt).

(** A list display [[a, b, c]] builds a new object. *)
Definition list_new (l : list string) : M loc :=
  fun w =>
    (set_heap w (fun a => if Nat.eqb a (next_loc w) then l else heap w a)
              (S (next_loc w)),
     Ret (next_loc w)).

Definition list_get (a : loc) : M (list string) :=
  fun w => (w, Ret (heap w a)).

(** [a.append(x)] changes the object at [a]. *)
Definition list_append (a : loc) (x : string) : M unit :=
  fun w =>
    (set_heap w (fun b => if Nat.eqb b a then (heap w a ++ [x])%list
                          else heap w b)
              (next_loc w),
     Ret tt).

(** A [for] loop whose body updates a local value and may have effects. *)
Fixpoint for_each {A B} (body : B -> A -> M B) (l : list A) (acc : B) : M B :=
  match l with
  | [] => ret acc
  | x :: l' => acc' <- body acc x ;; for_each body l' acc'
  end.

(** ** Text building *)

Definition nl : string := String (ascii_of_nat 10) EmptyString.
Definition dq : string := String (ascii_of_nat 34) EmptyString.

(** [str(n)] and [{n}] in an f-string, for a natural number. *)
Definition str (n : nat) : string :=
  DecimalString.NilZero.string_of_uint (Nat.to_uint n).

(** [enumerate(l)] *)
Definition enumerate {A} (l : list A) : list (nat * A) :=
  combine (seq 0 (length l)) l.

(** [sep.join(l)] *)
Definition join (sep : string) (l : list string) : string :=
  String.concat sep l.

(** ** [merge_html_files] *)

Definition default_titles : list string :=
  [ "📊 Expenditure and Contribution Analysis";
    "🗺️ Geographic Distribution by County";
    "📈 Additional Analysis" ].

(** The title appended at source line 37, for the current list. *)
Definition padding_title (titles : list string) : string :=
  "📊 Visualization " ++ str (length titles + 1).

(** The [while] loop of source lines 36 and 37.  Each round reads the list
    object again; [fuel] bounds the number of tests of the condition. *)
Fixpoint pad_titles (fuel : nat) (titles : loc) (file_paths : list string)
    : M unit :=
  match fuel with
  | O => out_of_fuel
  | S fuel' =>
      ts <- list_get titles ;;
      if Nat.ltb (length ts) (length file_paths) then
        list_append titles (padding_title ts) ;;;
        pad_titles fuel' titles file_paths
      else ret tt
  end.

(** The body of the [for] loop of source lines 41 to 50. *)
Definition read_spec (specs : list string) (item : nat * string)
    : M (list string) :=
  let '(i, file_path) := item in
  try_except
    (html_content <- read_file file_path ;;
     let spec := extract_spec html_content in
     let specs := (specs ++ [spec])%list in
     print ("✓ 已读取文件 " ++ str (i + 1) ++ ": " ++ file_path) ;;;
     ret specs)
    is_FileNotFoundError
    (print ("✗ 警告: 找不到文件 " ++ file_path) ;;;
     ret (specs ++ ["{}"])%list).

(** The [for] loop of source lines 40 to 50. *)
Definition read_specs (file_paths : list string) : M (list string) :=
  for_each read_spec (enumerate file_paths) [].

(** Source lines 55 to 61. *)
Definition vis_div (i : nat) (title : string) : string :=
  nl ++
  "    <!-- 第" ++ str (i + 1) ++ "个可视化 -->" ++ nl ++
  "    <div class=" ++ dq ++ "visualization" ++ dq ++ ">" ++ nl ++
  "      <div class=" ++ dq ++ "vis-title" ++ dq ++ ">" ++ title ++ "</div>" ++ nl ++
  "      <div id=" ++ dq ++ "vis" ++ str (i + 1) ++ dq ++ "></div>" ++ nl ++
  "    </div>" ++ nl ++
  "    ".

(** Source line 66. *)
Definition spec_declaration (i : nat) (spec : string) : string :=
  "      var spec" ++ str (i + 1) ++ " = " ++ spec ++ ";" ++ nl.

(** Source lines 71 to 76. *)
Definition render_call (i : nat) : string :=
  nl ++
  "      // 渲染第" ++ str (i + 1) ++ "个图表" ++ nl ++
  "      const el" ++ str (i + 1) ++ " = document.getElementById('vis" ++ str (i + 1) ++ "');" ++ nl ++
  "      vegaEmbed(" ++ dq ++ "#vis" ++ str (i + 1) ++ dq ++ ", spec" ++ str (i + 1) ++ ", embedOpt)" ++ nl ++
  "        .catch(error => showError(el" ++ str (i + 1) ++ ", error));" ++ nl ++
  "      ".

(** Source line 79, one selector. *)
Definition vega_embed_style (i : nat) : string :=
  "#vis" ++ str (i + 1) ++ ".vega-embed".

(** Source line 80, one selector pair. *)
Definition vega_embed_detail (i : nat) : string :=
  "#vis" ++ str (i + 1) ++ ".vega-embed details," ++ nl ++
  "    #vis" ++ str (i + 1) ++ ".vega-embed details summary".

(** The text of the page template (source lines 83 to 191), cut at its five
    placeholders: part 1 runs up to [{vega_embed_styles}]. *)
Definition html_part1 : string :=
  "<!DOCTYPE html>" ++ nl ++
  "<html>" ++ nl ++
  "<head>" ++ nl ++
  "  <meta charset=" ++ dq ++ "UTF-8" ++ dq ++ ">" ++ nl ++
  "  <title>Michigan Political Finance Dashboard</title>" ++ nl ++
  "  <style>" ++ nl ++
  "    body {" ++ nl ++
  "      font-family: Arial, sans-serif;" ++ nl ++
  "      margin: 0;" ++ nl ++
  "      padding: 20px;" ++ nl ++
  "      background-color: #f5f5f5;" ++ nl ++
  "    }" ++ nl ++
  "    " ++ nl ++
  "    .container {" ++ nl ++
  "      max-width: 1400px;" ++ nl ++
  "      margin: 0 auto;" ++ nl ++
  "      background-color: white;" ++ nl ++
  "      padding: 20px;" ++ nl ++
  "      box-shadow: 0 2px 4px rgba(0,0,0,0.1);" ++ nl ++
  "    }" ++ nl ++
  "    " ++ nl ++
  "    h1 {" ++ nl ++
  "      text-align: center;" ++ nl ++
  "      color: #333;" ++ nl ++
  "      margin-bottom: 10px;" ++ nl ++
  "      font-size: 28px;" ++ nl ++
  "    }" ++ nl ++
  "    " ++ nl ++
  "    .subtitle {" ++ nl ++
  "      text-align: center;" ++ nl ++
  "      color: #666;" ++ nl ++
  "      margin-bottom: 30px;" ++ nl ++
  "      font-size: 14px;" ++ nl ++
  "    }" ++ nl ++
  "    " ++ nl ++
  "    .visualization {" ++ nl ++
  "      margin-bottom: 40px;" ++ nl ++
  "      border: 1px solid #ddd;" ++ nl ++
  "      padding: 20px;" ++ nl ++
  "      border-radius: 5px;" ++ nl ++
  "      background-color: #fafafa;" ++ nl ++
  "    }" ++ nl ++
  "    " ++ nl ++
  "    .visualization:last-child {" ++ nl ++
  "      margin-bottom: 0;" ++ nl ++
  "    }" ++ nl ++
  "    " ++ nl ++
  "    .vis-title {" ++ nl ++
  "      font-size: 20px;" ++ nl ++
  "      font-weight: bold;" ++ nl ++
  "      color: #555;" ++ nl ++
  "      margin-bottom: 15px;" ++ nl ++
  "      padding-bottom: 10px;" ++ nl ++
  "      border-bottom: 2px solid #007bff;" ++ nl ++
  "    }" ++ nl ++
  nl ++
  "    ".

(** Part 2: from [{vega_embed_styles}] to [{vega_embed_details}]. *)
Definition html_part2 : string :=
  " {" ++ nl ++
  "      width: 100%;" ++ nl ++
  "      display: flex;" ++ nl ++
  "    }" ++ nl ++
  nl ++
  "    ".

(** Part 3: from [{vega_embed_details}] to [{vis_divs}]. *)
Definition html_part3 : string :=
  " {" ++ nl ++
  "      position: relative;" ++ nl ++
  "    }" ++ nl ++
  "    " ++ nl ++
  "    .footer {" ++ nl ++
  "      text-align: center;" ++ nl ++
  "      margin-top: 30px;" ++ nl ++
  "      padding-top: 20px;" ++ nl ++
  "      border-top: 1px solid #ddd;" ++ nl ++
  "      color: #999;" ++ nl ++
  "      font-size: 12px;" ++ nl ++
  "    }" ++ nl ++
  "  </style>" ++ nl ++
  "  <script type=" ++ dq ++ "text/javascript" ++ dq ++ " src=" ++ dq ++ "https://cdn.jsdelivr.net/npm/vega@5" ++ dq ++ "></script>" ++ nl ++
  "  <script type=" ++ dq ++ "text/javascript" ++ dq ++ " src=" ++ dq ++ "https://cdn.jsdelivr.net/npm/vega-lite@5.20.1" ++ dq ++ "></script>" ++ nl ++
  "  <script type=" ++ dq ++ "text/javascript" ++ dq ++ " src=" ++ dq ++ "https://cdn.jsdelivr.net/npm/vega-embed@6" ++ dq ++ "></script>" ++ nl ++
  "</head>" ++ nl ++
  "<body>" ++ nl ++
  "  <div class=" ++ dq ++ "container" ++ dq ++ ">" ++ nl ++
  "    <h1>Michigan Political Finance Analysis Dashboard</h1>" ++ nl ++
  "    <div class=" ++ dq ++ "subtitle" ++ dq ++ ">Comprehensive visualization of political finance data</div>" ++ nl ++
  "    ".

(** Part 4: from [{vis_divs}] to [{spec_declarations}]. *)
Definition html_part4 : string :=
  nl ++
  "    <div class=" ++ dq ++ "footer" ++ dq ++ ">" ++ nl ++
  "      Generated with Vega-Lite | Data visualization dashboard" ++ nl ++
  "    </div>" ++ nl ++
  "  </div>" ++ nl ++
  nl ++
  "  <script>" ++ nl ++
  "    (function(vegaEmbed) {" ++ nl ++
  "      // 图表规范" ++ nl.

(** Part 5: from [{spec_declarations}] to [{render_code}]. *)
Definition html_part5 : string :=
  nl ++
  "      " ++ nl ++
  "      var embedOpt = {" ++ dq ++ "mode" ++ dq ++ ": " ++ dq ++ "vega-lite" ++ dq ++ "};" ++ nl ++
  nl ++
  "      function showError(el, error){" ++ nl ++
  "          el.innerHTML = ('<div style=" ++ dq ++ "color:red;" ++ dq ++ ">'" ++ nl ++
  "                          + '<p>JavaScript Error: ' + error.message + '</p>'" ++ nl ++
  "                          + " ++ dq ++ "<p>This usually means there's a typo in your chart specification. " ++ dq ++ nl ++
  "                          + " ++ dq ++ "See the javascript console for the full traceback.</p>" ++ dq ++ nl ++
  "                          + '</div>');" ++ nl ++
  "          throw error;" ++ nl ++
  "      }" ++ nl ++
  "      ".

(** Part 6: after [{render_code}]. *)
Definition html_part6 : string :=
  nl ++
  "    })(vegaEmbed);" ++ nl ++
  nl ++
  "  </script>" ++ nl ++
  "</body>" ++ nl ++
  "</html>".

(** The f-string of source lines 83 to 191. *)
Definition merged_html_text
    (vega_embed_styles vega_embed_details vis_divs spec_declarations
       render_code : string) : string :=
  html_part1 ++ vega_embed_styles ++
  html_part2 ++ vega_embed_details ++
  html_part3 ++ vis_divs ++
  html_part4 ++ spec_declarations ++
  html_part5 ++ render_code ++
  html_part6.

(** The three accumulating loops of source lines 53 to 76. *)
Definition build_vis_divs (titles : list string) : string :=
  fold_left (fun vis_divs '(i, title) => vis_divs ++ vis_div i title)
            (enumerate titles) EmptyString.

Definition build_spec_declarations (specs : list string) : string :=
  fold_left (fun decls '(i, spec) => decls ++ spec_declaration i spec)
            (enumerate specs) EmptyString.

Definition build_render_code (specs : list string) : string :=
  fold_left (fun code i => code ++ render_call i)
            (seq 0 (length specs)) EmptyString.

(** Source lines 52 to 191: the page for the effective titles
    [titles[:len(file_paths)]] and the extracted specifications. *)
Definition build_page (titles specs : list string) : string :=
  let vis_divs := build_vis_divs titles in
  let spec_declarations := build_spec_declarations specs in
  let render_code := build_render_code specs in
  let vega_embed_styles :=
    join ", " (map vega_embed_style (seq 1 (length specs))) in
  let vega_embed_details :=
    join ", " (map vega_embed_detail (seq 1 (length specs))) in
  merged_html_text vega_embed_styles vega_embed_details vis_divs
                   spec_declarations render_code.

(** The summary printed at source line 197. *)
Definition summary_line (file_paths : list string) (output_path : string)
    : string :=
  nl ++
  "✅ 成功合并 " ++ str (length file_paths) ++ " 个HTML文件到: " ++ output_path.

(** [merge_html_files(file_paths, output_path, titles=None)].  [titles] is
    [None] or the address of the caller's list. *)
Definition merge_html_files (file_paths : list string) (output_path : string)
    (titles : option loc) : M unit :=
  titles <- match titles with
            | None => list_new default_titles
            | Some a => ret a
            end ;;
  pad_titles (S (length file_paths)) titles file_paths ;;;
  specs <- read_specs file_paths ;;
  ts <- list_get titles ;;
  let merged_html := build_page (firstn (length file_paths) ts) specs in
  write_file output_path merged_html ;;;
  print (summary_line file_paths output_path).

(** ** The entry point

    The block under [if __name__ == "__main__"] (source lines 200 to
    224). *)

(** [try: body except <class> as e: handler(e)]. *)
Definition try_except_as {A} (body : M A) (caught : pyexn -> bool)
    (handler : pyexn -> M A) : M A :=
  fun w =>
    match body w with
    | (w', Raise e) => if caught e then handler e w' else (w', Raise e)
    | r => r
    end.

(** [except Exception]: every exception of the built-in calls involved is
    one. *)
Definition is_Exception (e : pyexn) : bool := true.

Definition main_files : list string :=
  [ "michigan_choropleth.html";
    "michigan_choropleth2.html";
    "expenditure_contribution_dashboard.html" ].

Definition main_titles : list string :=
  [ "🗺️ Michigan Counties - Log Average Amount by County(Expenditure)";
    "📊 Michigan Counties - Log Average Amount by County(Contribution)";
    "📈 Trend Analysis Over Time" ].

Definition main_output : string := "index.html".

(** [describe w e] stands for [str(e)], the platform's text for the
    exception caught in the world [w].  [traceback.print_exc()] writes to
    the standard error stream, which the world does not record. *)
Definition main (describe : world -> pyexn -> string) : M unit :=
  let files := main_files in
  titles <- list_new main_titles ;;
  let output := main_output in
  try_except_as
    (merge_html_files files output (Some titles) ;;;
     print ("🎉 合并完成！请在浏览器中打开 " ++ output ++ " 查看结果。") ;;;
     print ("📊 共合并了 " ++ str (length files) ++ " 个可视化图表"))
    is_Exception
    (fun e w => print ("❌ 发生错误: " ++ describe w e) w).

(** ** Vocabulary of the statements *)

(** A decision procedure for [occurs_in]. *)
Fixpoint occursb (p s : string) : bool :=
  prefix p s ||
  match s with
  | String _ s' => occursb p s'
  | EmptyString => false
  end.

(** The texts of a list, one after the other. *)
Definition flatten (l : list string) : string :=
  fold_right String.append EmptyString l.

(** The specification recorded for a document and the status line printed
    for it, by the two branches of source lines 42 to 50.  Both are
    meaningful for a file that is readable or missing. *)
Definition file_spec (f : file) : string :=
  match f with
  | Readable html_content => extract_spec html_content
  | Fails _ => "{}"
  end.

Definition file_status (i : nat) (file_path : string) (f : file) : string :=
  match f with
  | Readable _ => "✓ 已读取文件 " ++ str (i + 1) ++ ": " ++ file_path
  | Fails _ => "✗ 警告: 找不到文件 " ++ file_path
  end.

(** The read of a document returns or raises the one exception that
    [merge_html_files] catches. *)
Definition recoverable (f : file) : bool :=
  match f with
  | Readable _ => true
  | Fails e => is_FileNotFoundError e
  end.

(** The same for an item of [enumerate(file_paths)] in a world. *)
Definition item_spec (w : world) (item : nat * string) : string :=
  file_spec (files w (snd item)).

Definition item_status (w : world) (item : nat * string) : string :=
  file_status (fst item) (snd item) (files w (snd item)).

Definition item_recoverable (w : world) (item : nat * string) : bool :=
  recoverable (files w (snd item)).

Definition recorded_specs (w : world) (file_paths : list string)
    : list string :=
  map (fun p => file_spec (files w p)) file_paths.

Definition status_lines (w : world) (file_paths : list string)
    : list string :=
  map (item_status w) (enumerate file_paths).

(** The titles appended to a list of length [m] to reach length [n]. *)
Definition padding (m n : nat) : list string :=
  map (fun k => "📊 Visualization " ++ str (k + 1)) (seq m (n - m)).

(** What the padding loop leaves behind: only the list object at [a] has
    changed, by the appended titles. *)
Definition padded (w : world) (a : loc) (n : nat) (w' : world) : Prop :=
  files w' = files w /\
  write_fault w' = write_fault w /\
  stdout w' = stdout w /\
  next_loc w' = next_loc w /\
  heap w' a = (heap w a ++ padding (length (heap w a)) n)%list /\
  (forall b, b <> a -> heap w' b = heap w b).

(** The exception at which the read loop stops, if any: that of the first
    document whose read raises something other than [FileNotFoundError]. *)
Fixpoint first_failure (w : world) (file_paths : list string)
    : option pyexn :=
  match file_paths with
  | [] => None
  | p :: rest =>
      match files w p with
      | Readable _ => first_failure w rest
      | Fails e =>
          if is_FileNotFoundError e then first_failure w rest else Some e
      end
  end.

(** How a call ends: at the first failing read, else at a failing write,
    else by returning. *)
Definition run_outcome (w : world) (file_paths : list string)
    (output_path : string) : outcome unit :=
  match first_failure w file_paths with
  | Some e => Raise e
  | None =>
      match write_fault w output_path with
      | Some e => Raise e
      | None => Ret tt
      end
  end.

(** The list the call works on, before the call: the caller's list, or the
    default titles in a new object at the next free address. *)
Definition titles_before (w : world) (titles : option loc) : list string :=
  match titles with
  | None => default_titles
  | Some a => heap w a
  end.

Definition titles_loc (w : world) (titles : option loc) : loc :=
  match titles with
  | None => next_loc w
  | Some a => a
  end.

(** [titles[:n]] after the padding loop, for a list that was [titles]. *)
Definition effective_titles (titles : list string) (n : nat) : list string :=
  firstn n (titles ++ padding (length titles) n).

(** The world [w'] that a completed call leaves, from the world [w] it
    started in: the page written at [output_path], the lines printed, the
    titles list padded, and nothing else changed. *)
Definition completed (w : world) (file_paths : list string)
    (output_path : string) (titles : option loc) (w' : world) : Prop :=
  let n := length file_paths in
  let ts := titles_before w titles in
  files w' = (fun p => if String.eqb p output_path
                       then Readable (build_page (effective_titles ts n)
                                        (recorded_specs w file_paths))
                       else files w p) /\
  stdout w' = (stdout w ++ status_lines w file_paths
                 ++ [summary_line file_paths output_path])%list /\
  heap w' (titles_loc w titles) = (ts ++ padding (length ts) n)%list /\
  (forall b, b <> titles_loc w titles -> heap w' b = heap w b) /\
  write_fault w' = write_fault w.

(** The world in which the document at [path] is readable with the given
    text. *)
Definition with_text (w : world) (path text : string) : world :=
  set_files w (fun p => if String.eqb p path then Readable text
                        else files w p).

(** ** A sample world

    Two documents that follow the convention, one without the assignment,
    one that exists but may not be read; every other path is missing.  The
    caller holds a list of one title at address 0 and an empty list at
    address 1. *)

Definition sample_a : string :=
  "<script>" ++ nl ++
  "  var spec = {" ++ dq ++ "a" ++ dq ++ ": 1};" ++ nl ++
  "</script>".

Definition sample_b : string :=
  "<script>var spec = {" ++ dq ++ "b" ++ dq ++ ": [1,2,3]};</script>".

Definition sample_plain : string := "<html><body>no chart</body></html>".

Definition sample_files (p : string) : file :=
  if String.eqb p "a.html" then Readable sample_a
  else if String.eqb p "b.html" then Readable sample_b
  else if String.eqb p "plain.html" then Readable sample_plain
  else if String.eqb p "locked.html" then Fails PermissionError
  else Fails FileNotFoundError.

Definition sample_world : world :=
  mkWorld sample_files
          (fun _ => None)
          (fun a => if Nat.eqb a 0 then ["Spending"] else [])
          2
          [].

Definition sample_paths : list string :=
  ["a.html"; "missing.html"; "b.html"].

(** A call on the three sample paths with the caller's list. *)
Definition sample_run : world * outcome unit :=
  merge_html_files sample_paths "index.html" (Some 0) sample_world.

(** An object literal with a [};] inside a text value: [head], then [};],
    then [rest] and the closing brace. *)
Definition sample_head : string := dq ++ "f" ++ dq ++ ": " ++ dq ++ "a".
Definition sample_rest : string := "b" ++ dq.

(** The world in which the entry point calls [merge_html_files]: its
    titles are a new list object. *)
Definition main_start (w : world) : world :=
  set_heap w (fun a => if Nat.eqb a (next_loc w) then main_titles
                       else heap w a)
           (S (next_loc w)).

(** A decimal digit, and a text made of decimal digits. *)
Definition is_digit (c : ascii) : bool :=
  (48 <=? nat_of_ascii c)%nat && (nat_of_ascii c <=? 57)%nat.

Fixpoint all_digits (s : string) : bool :=
  match s with
  | EmptyString => true
  | String c s' => is_digit c && all_digits s'
  end.

(** The text is empty or starts with something other than a digit. *)
Definition starts_nondigit (s : string) : bool :=
  match s with
  | EmptyString => true
  | String c _ => negb (is_digit c)
  end.

(** The sample world with an output directory that may not be written. *)
Definition sample_readonly : world :=
  mkWorld sample_files (fun _ => Some PermissionError)
          (heap sample_world) (next_loc sample_world) [].

(** A stand-in for the platform's text of an exception. *)
Definition sample_describe (w : world) (e : pyexn) : string :=
  match e with
  | FileNotFoundError => "No such file or directory"
  | PermissionError => "Permission denied"
  | IsADirectoryError => "Is a directory"
  | UnicodeDecodeError => "invalid start byte"
  end.

(** * Properties *)

(** ** Strings *)

Section StringFacts.

Lemma append_nil_r (s : string) : (s ++ EmptyString)%string = s.
Proof. induction s as [|c s IH]; simpl; [reflexivity | now rewrite IH]. Qed.

Lemma append_assoc (a b c : string) :
  ((a ++ b) ++ c)%string = (a ++ (b ++ c))%string.
Proof. induction a as [|x a IH]; simpl; [reflexivity | now rewrite IH]. Qed.

Lemma length_append (a b : string) :
  String.length (a ++ b) = String.length a + String.length b.
Proof. induction a as [|x a IH]; simpl; [reflexivity | now rewrite IH]. Qed.

(** Two splittings of one text: the shorter head is a prefix of the
    longer one. *)
Lemma append_eq_split (a b c d : string) :
  (a ++ b)%string = (c ++ d)%string ->
  String.length a <= String.length c ->
  exists m, c = (a ++ m)%string /\ b = (m ++ d)%string.
Proof.
  revert c; induction a as [|x a IH]; intros c H Hlen; simpl in *.
  - exists c. now split.
  - destruct c as [|y c]; simpl in *; [lia|].
    injection H as -> H.
    destruct (IH c H ltac:(lia)) as (m & -> & ->).
    exists m. now split.
Qed.

Lemma String_inj (c d : ascii) (s t : string) :
  String c s = String d t -> c = d /\ s = t.
Proof. intros H. injection H as -> ->. now split. Qed.

Lemma prefix_append (p s : string) : prefix p (p ++ s) = true.
Proof.
  induction p as [|c p IH]; simpl.
  - now destruct s.
  - destruct (ascii_dec c c) as [_|n]; [exact IH | now elim n].
Qed.

Lemma prefix_true_inv (p s : string) :
  prefix p s = true -> exists r, s = (p ++ r)%string.
Proof.
  revert s; induction p as [|c p IH]; intros s H.
  - exists s. reflexivity.
  - destruct s as [|d s]; simpl in H; [discriminate|].
    destruct (ascii_dec c d) as [->|_]; [|discriminate].
    destruct (IH s H) as (r & ->). exists r. reflexivity.
Qed.

Lemma substring_append_mid (a b c : string) :
  substring (String.length a) (String.length b) (a ++ b ++ c) = b.
Proof.
  induction a as [|x a IH]; simpl; [|exact IH].
  induction b as [|y b IHb]; simpl.
  - now destruct c.
  - now rewrite IHb.
Qed.

End StringFacts.


(** ** The matcher on the pattern of [extract_spec] *)

Section Matcher.

Local Abbreviation open_text := "var spec = {" (only parsing).
Local Abbreviation close_text := "};" (only parsing).

Lemma occurs_in_cons (p : string) (c : ascii) (s : string) :
  occurs_in p (String c s) <->
  (exists r, String c s = (p ++ r)%string) \/ occurs_in p s.
Proof.
  split.
  - intros (a & b & H). destruct a as [|x a]; simpl in H.
    + left. now exists b.
    + right. injection H as _ H. now exists a, b.
  - intros [(r & H) | (a & b & H)].
    + exists EmptyString, r. exact H.
    + exists (String c a), b. simpl. now rewrite H.
Qed.

Lemma occurs_in_short (p s : string) :
  String.length s < String.length p -> ~ occurs_in p s.
Proof.
  intros Hlen (a & b & ->). rewrite !length_append in Hlen. lia.
Qed.

Lemma occurs_in_empty_iff (p : string) :
  occurs_in p EmptyString <-> p = EmptyString.
Proof.
  split.
  - intros (a & b & H). destruct a; [|discriminate].
    destruct p; [reflexivity | discriminate].
  - intros ->. now exists EmptyString, EmptyString.
Qed.

(** Literal text in front of a pattern. *)
Lemma match_here_lit (l : string) (p : list Re.tok) (s : string)
    (pos : nat) (g : Re.span) :
  Re.match_here (Re.lit l ++ p) (l ++ s) pos g
  = Re.match_here p s (String.length l + pos) g.
Proof.
  revert pos; induction l as [|c l IH]; intros pos; simpl.
  - reflexivity.
  - rewrite Ascii.eqb_refl. fold (Re.lit l). rewrite IH. f_equal. lia.
Qed.

Lemma match_here_lit_inv (l : string) (p : list Re.tok) (s : string)
    (pos : nat) (g : Re.span) (r : Re.span) :
  Re.match_here (Re.lit l ++ p) s pos g = Some r ->
  exists s', s = (l ++ s')%string.
Proof.
  revert s pos; induction l as [|c l IH]; intros s pos H; simpl in *.
  - now exists s.
  - destruct s as [|d s]; [discriminate|].
    destruct (Ascii.eqb c d) eqn:E; [|discriminate].
    apply Ascii.eqb_eq in E as ->.
    destruct (IH _ _ H) as (s' & ->). now exists s'.
Qed.

(** The end of the pattern: the closing brace, the end of the group and
    the semicolon. *)
Lemma match_close (s : string) (pos : nat) (g : Re.span) :
  Re.match_here close_toks (String "}" (String ";" s)) pos g
  = Some (fst g, S pos).
Proof. reflexivity. Qed.

Lemma match_close_inv (s : string) (pos : nat) (g r : Re.span) :
  Re.match_here close_toks s pos g = Some r ->
  (exists s', s = (close_text ++ s')%string) /\ r = (fst g, S pos).
Proof.
  unfold close_toks.
  destruct s as [|c [|d s]]; cbn [Re.match_here]; try discriminate.
  - destruct (Ascii.eqb "}" c); discriminate.
  - destruct (Ascii.eqb "}" c) eqn:Ec; [|discriminate].
    destruct (Ascii.eqb ";" d) eqn:Ed; [|discriminate].
    apply Ascii.eqb_eq in Ec as <-. apply Ascii.eqb_eq in Ed as <-.
    intros [= <-]. split; [now exists s | reflexivity].
Qed.

(** One step of the lazy repetition. *)
Lemma lazy_unfold (s : string) (pos : nat) (g : Re.span) :
  Re.match_here (Re.LazyAny :: close_toks) s pos g
  = match Re.match_here close_toks s pos g with
    | Some r => Some r
    | None =>
        match s with
        | String _ s' =>
            Re.match_here (Re.LazyAny :: close_toks) s' (S pos) g
        | EmptyString => None
        end
    end.
Proof. destruct s; reflexivity. Qed.

(** The lazy repetition stops at the first [};]. *)
Lemma lazy_complete (body post : string) (pos : nat) (g : Re.span) :
  ~ occurs_in close_text (body ++ "}") ->
  Re.match_here (Re.LazyAny :: close_toks)
                (body ++ close_text ++ post) pos g
  = Some (fst g, S (pos + String.length body)).
Proof.
  revert pos; induction body as [|c body IH]; intros pos Hno.
  - rewrite lazy_unfold. cbn [String.append String.length].
    rewrite match_close. now rewrite Nat.add_0_r.
  - rewrite lazy_unfold.
    destruct (Re.match_here close_toks _ pos g) as [r|] eqn:E.
    + exfalso. apply match_close_inv in E as [(s' & E) _].
      apply Hno. cbn [String.append] in E |- *.
      apply String_inj in E as [-> E].
      apply occurs_in_cons. left.
      destruct body as [|d body]; cbn [String.append] in E;
        apply String_inj in E as [E _].
      * discriminate.
      * subst d. exists (body ++ "}")%string. reflexivity.
    + change (Re.match_here (Re.LazyAny :: close_toks)
                            (body ++ close_text ++ post) (S pos) g
              = Some (fst g, S (pos + S (String.length body)))).
      rewrite IH.
      * f_equal. f_equal. lia.
      * intros H. apply Hno. cbn [String.append].
        apply occurs_in_cons. now right.
Qed.

Lemma lazy_sound (s : string) (pos : nat) (g r : Re.span) :
  Re.match_here (Re.LazyAny :: close_toks) s pos g = Some r ->
  exists body post,
    s = (body ++ close_text ++ post)%string /\
    r = (fst g, S (pos + String.length body)) /\
    ~ occurs_in close_text (body ++ "}").
Proof.
  revert pos; induction s as [|c s IH]; intros pos; rewrite lazy_unfold.
  - simpl. discriminate.
  - destruct (Re.match_here close_toks (String c s) pos g) as [r'|] eqn:E.
    + intros [= <-]. apply match_close_inv in E as [(s' & E) ->].
      exists EmptyString, s'. repeat split.
      * exact E.
      * simpl. now rewrite Nat.add_0_r.
      * apply occurs_in_short. simpl. lia.
    + intros H. destruct (IH _ H) as (body & post & -> & -> & Hno).
      exists (String c body), post. repeat split.
      * simpl. f_equal. f_equal. lia.
      * simpl. rewrite occurs_in_cons. intros [(t & Ht) | Hocc]; [|tauto].
        cbn [String.append] in Ht. apply String_inj in Ht as [-> Ht].
        assert (Hs : exists u, (body ++ close_text ++ post)%string
                               = String ";" u).
        { destruct body as [|d body]; cbn [String.append] in Ht |- *;
            apply String_inj in Ht as [Ht _].
          - discriminate.
          - subst d. eauto. }
        destruct Hs as (u & Hu). rewrite Hu in E.
        rewrite match_close in E. discriminate.
Qed.

Lemma lazy_some (body post : string) (pos : nat) (g : Re.span) :
  Re.match_here (Re.LazyAny :: close_toks)
                (body ++ close_text ++ post) pos g <> None.
Proof.
  revert pos; induction body as [|c body IH]; intros pos;
    rewrite lazy_unfold.
  - cbn [String.append]. rewrite match_close. discriminate.
  - destruct (Re.match_here close_toks _ pos g); [discriminate|].
    exact (IH (S pos)).
Qed.

Lemma spec_pattern_eq :
  spec_pattern
  = (Re.lit "var spec = "
       ++ Re.GroupOpen :: Re.lit "{" ++ Re.LazyAny :: close_toks)%list.
Proof. reflexivity. Qed.

(** The opening text, with the start of the group recorded before the
    brace. *)
Lemma match_open (t : string) (pos : nat) (g : Re.span) :
  Re.match_here spec_pattern (open_text ++ t) pos g
  = Re.match_here (Re.LazyAny :: close_toks) t (12 + pos) (11 + pos, snd g).
Proof.
  rewrite spec_pattern_eq.
  change (open_text ++ t)%string with ("var spec = " ++ "{" ++ t)%string.
  rewrite match_here_lit. cbn [Re.match_here].
  change (Re.Chr "{" :: Re.LazyAny :: close_toks)
    with (Re.lit "{" ++ Re.LazyAny :: close_toks)%list.
  rewrite match_here_lit. reflexivity.
Qed.

Lemma match_open_inv (s : string) (pos : nat) (g r : Re.span) :
  Re.match_here spec_pattern s pos g = Some r ->
  exists t, s = (open_text ++ t)%string.
Proof.
  rewrite spec_pattern_eq. intros H.
  destruct (match_here_lit_inv _ _ _ _ _ _ H) as (s1 & ->).
  rewrite match_here_lit in H. cbn [Re.match_here] in H.
  change (Re.Chr "{" :: Re.LazyAny :: close_toks)
    with (Re.lit "{" ++ Re.LazyAny :: close_toks)%list in H.
  destruct (match_here_lit_inv _ _ _ _ _ _ H) as (t & ->).
  now exists t.
Qed.

Lemma search_unfold (p : list Re.tok) (s : string) (pos : nat) :
  Re.search_from p s pos
  = match Re.match_here p s pos (0, 0) with
    | Some g => Some g
    | None =>
        match s with
        | String _ s' => Re.search_from p s' (S pos)
        | EmptyString => None
        end
    end.
Proof. destruct s; reflexivity. Qed.

Lemma open_regroup (pre x : string) :
  (pre ++ open_text ++ x)%string = ((pre ++ "var spec = ") ++ "{" ++ x)%string.
Proof. now rewrite append_assoc. Qed.

(** Where the pattern occurs, the search succeeds. *)
Lemma search_some (s : string) (pos : nat) :
  pattern_occurs s -> Re.search_from spec_pattern s pos <> None.
Proof.
  intros (pre & body & post & ->). revert pos.
  induction pre as [|c pre IH]; intros pos; rewrite search_unfold.
  - change (EmptyString ++ open_text ++ body ++ close_text ++ post)%string
      with (open_text ++ body ++ close_text ++ post)%string.
    rewrite match_open.
    destruct (Re.match_here _ _ _ _) eqn:E; [discriminate|].
    now apply lazy_some in E.
  - destruct (Re.match_here _ _ _ _); [discriminate|]. exact (IH (S pos)).
Qed.

(** The search returns the span of the leftmost occurrence, closed at the
    first [};] after its opening text. *)
Lemma search_complete (pre body post : string) (pos : nat) :
  ~ occurs_in open_text (pre ++ "var spec = ") ->
  ~ occurs_in close_text (body ++ "}") ->
  Re.search_from spec_pattern
                 (pre ++ open_text ++ body ++ close_text ++ post) pos
  = Some (11 + (String.length pre + pos),
          S (12 + (String.length pre + pos) + String.length body)).
Proof.
  intros Hpre Hbody. revert pos Hpre.
  induction pre as [|c pre IH]; intros pos Hpre; rewrite search_unfold.
  - change (EmptyString ++ open_text ++ body ++ close_text ++ post)%string
      with (open_text ++ body ++ close_text ++ post)%string.
    rewrite match_open, lazy_complete by exact Hbody. reflexivity.
  - destruct (Re.match_here _ _ _ _) as [r|] eqn:E.
    + exfalso. apply match_open_inv in E as (t & E).
      rewrite open_regroup in E. symmetry in E.
      apply append_eq_split in E as (m & E & _).
      * apply Hpre. exists EmptyString, m. exact E.
      * rewrite length_append. simpl. lia.
    + change (Re.search_from spec_pattern
                (pre ++ open_text ++ body ++ close_text ++ post) (S pos)
              = Some (11 + (S (String.length pre) + pos),
                      S (12 + (S (String.length pre) + pos)
                         + String.length body))).
      rewrite IH.
      * f_equal. f_equal; [lia|]. f_equal. lia.
      * intros H. apply Hpre. cbn [String.append].
        apply occurs_in_cons. now right.
Qed.

Lemma search_sound (s : string) (pos : nat) (r : Re.span) :
  Re.search_from spec_pattern s pos = Some r ->
  exists pre body post,
    s = (pre ++ open_text ++ body ++ close_text ++ post)%string /\
    ~ occurs_in open_text (pre ++ "var spec = ") /\
    ~ occurs_in close_text (body ++ "}").
Proof.
  revert pos; induction s as [|c s IH]; intros pos; rewrite search_unfold.
  - destruct (Re.match_here _ _ _ _) eqn:E; [|discriminate].
    apply match_open_inv in E as (t & E). discriminate.
  - destruct (Re.match_here _ _ _ _) as [g|] eqn:E.
    + intros _. destruct (match_open_inv _ _ _ _ E) as (t & Ht).
      rewrite Ht, match_open in E.
      apply lazy_sound in E as (body & post & -> & _ & Hbody).
      exists EmptyString, body, post. repeat split.
      * exact Ht.
      * apply occurs_in_short. simpl. lia.
      * exact Hbody.
    + intros H. destruct (IH _ H) as (pre & body & post & -> & Hpre & Hbody).
      exists (String c pre), body, post. repeat split; [|exact Hbody].
      cbn [String.append]. rewrite occurs_in_cons.
      intros [(m & Hm) | Hocc]; [|tauto].
      assert (Hs : String c (pre ++ open_text ++ body ++ close_text ++ post)
                   = (open_text ++ (m ++ "{" ++ body) ++ close_text ++ post)%string).
      { rewrite open_regroup.
        change (String c ((pre ++ "var spec = ") ++ ?x))
          with (String c (pre ++ "var spec = ") ++ x)%string.
        rewrite Hm. now rewrite !append_assoc. }
      rewrite Hs, match_open in E. now apply lazy_some in E.
Qed.

End Matcher.

(** ** [extract_spec] *)

Section Extract.

Lemma occursb_spec (p s : string) : occursb p s = true <-> occurs_in p s.
Proof.
  induction s as [|c s IH].
  - cbn [occursb]. rewrite orb_false_r, occurs_in_empty_iff. split.
    + intros H. apply prefix_true_inv in H as (r & H).
      destruct p; [reflexivity | discriminate].
    + intros ->. reflexivity.
  - cbn [occursb]. rewrite orb_true_iff, IH, occurs_in_cons. split.
    + intros [H | H]; [left | now right]. now apply prefix_true_inv.
    + intros [(r & H) | H]; [left | now right].
      rewrite H. apply prefix_append.
Qed.

Lemma occursb_false (p s : string) : occursb p s = false -> ~ occurs_in p s.
Proof. intros H Hocc. apply occursb_spec in Hocc. congruence. Qed.

Lemma capture_regroup (pre body post : string) :
  pre ++ "var spec = " ++ ("{" ++ body ++ "}") ++ ";" ++ post
  = pre ++ "var spec = {" ++ body ++ "};" ++ post.
Proof. cbn [String.append]. now rewrite append_assoc. Qed.

(** At the leftmost opening text, closed at the first [};] after it, the
    function returns the text from the opening to the closing brace. *)
Lemma extract_spec_at (pre body post : string) :
  ~ occurs_in "var spec = {" (pre ++ "var spec = ") ->
  ~ occurs_in "};" (body ++ "}") ->
  extract_spec (pre ++ "var spec = {" ++ body ++ "};" ++ post)
  = "{" ++ body ++ "}".
Proof.
  intros Hpre Hbody. unfold extract_spec, Re.search.
  rewrite search_complete by assumption.
  unfold Re.group1. cbn [fst snd].
  rewrite <- capture_regroup.
  rewrite <- (append_assoc pre "var spec = ").
  replace (11 + (String.length pre + 0))
    with (String.length (pre ++ "var spec = "))
    by (rewrite length_append; cbn [String.length]; lia).
  replace (S (12 + (String.length pre + 0) + String.length body)
           - String.length (pre ++ "var spec = "))
    with (String.length ("{" ++ body ++ "}"))
    by (rewrite !length_append; cbn [String.length]; lia).
  apply substring_append_mid.
Qed.

Lemma extract_spec_no_match (s : string) :
  ~ pattern_occurs s -> extract_spec s = "{}".
Proof.
  intros Hno. unfold extract_spec, Re.search.
  destruct (Re.search_from spec_pattern s 0) as [r|] eqn:E; [|reflexivity].
  exfalso. apply Hno.
  destruct (search_sound _ _ _ E) as (pre & body & post & -> & _).
  now exists pre, body, post.
Qed.

(** The result is never the empty text. *)
Lemma extract_spec_nonempty (s : string) : extract_spec s <> EmptyString.
Proof.
  unfold extract_spec, Re.search.
  destruct (Re.search_from spec_pattern s 0) as [r|] eqn:E; [|discriminate].
  destruct (search_sound _ _ _ E) as (pre & body & post & Hs & Hpre & Hbody).
  pose proof (extract_spec_at pre body post Hpre Hbody) as H.
  unfold extract_spec, Re.search in H. rewrite <- Hs, E in H.
  rewrite H. discriminate.
Qed.

(** C1.  On every text in which the assignment pattern occurs,
    [extract_spec] returns the captured text of the first occurrence,
    unchanged: the text splits as [pre], the words [var spec = ], the
    captured text from an opening to a closing brace, a semicolon and
    [post]; no occurrence of the opening text starts further left, the
    closing brace and semicolon are the first after the opening, and the
    result is the captured text itself. *)
Theorem extract_spec_returns_first_capture (s : string) :
  pattern_occurs s ->
  exists pre body post,
    s = pre ++ "var spec = " ++ ("{" ++ body ++ "}") ++ ";" ++ post /\
    ~ occurs_in "var spec = {" (pre ++ "var spec = ") /\
    ~ occurs_in "};" (body ++ "}") /\
    extract_spec s = "{" ++ body ++ "}".
Proof.
  intros Hocc.
  destruct (Re.search_from spec_pattern s 0) as [r|] eqn:E.
  - destruct (search_sound _ _ _ E) as (pre & body & post & -> & Hpre & Hbody).
    exists pre, body, post. repeat split; try assumption.
    + now rewrite capture_regroup.
    + now apply extract_spec_at.
  - now apply (search_some s 0) in Hocc.
Qed.

(** C6.  The match is lazy: when the object literal assigned in the text
    has a first [};] before its end (the literal is [head], then [};],
    then [rest] up to its closing brace), [extract_spec] returns the
    literal cut after the brace of that first [};], a proper prefix of
    the literal. *)
Theorem extract_spec_truncates_at_first_close (pre head rest post : string) :
  ~ occurs_in "var spec = {" (pre ++ "var spec = ") ->
  ~ occurs_in "};" (head ++ "}") ->
  let literal := "{" ++ head ++ "};" ++ rest ++ "}" in
  let result := extract_spec (pre ++ "var spec = " ++ literal ++ ";" ++ post) in
  result = "{" ++ head ++ "}" /\
  literal = result ++ ";" ++ rest ++ "}" /\
  result <> literal.
Proof.
  intros Hpre Hhead literal result.
  assert (Hres : result = "{" ++ head ++ "}").
  { subst result literal.
    replace (pre ++ "var spec = " ++ ("{" ++ head ++ "};" ++ rest ++ "}")
                 ++ ";" ++ post)
      with (pre ++ "var spec = {" ++ head ++ "};" ++ (rest ++ "}") ++ ";" ++ post).
    - now apply extract_spec_at.
    - repeat (cbn [String.append]; rewrite ?append_assoc). reflexivity. }
  assert (Hlit : literal = result ++ ";" ++ rest ++ "}").
  { rewrite Hres. subst literal. cbn [String.append].
    now rewrite append_assoc. }
  repeat split; [exact Hres | exact Hlit |].
  intros Heq. rewrite Heq in Hlit at 1.
  apply (f_equal String.length) in Hlit.
  rewrite length_append in Hlit. simpl in Hlit. lia.
Qed.

End Extract.

(** ** The phases of [merge_html_files] *)

Section Phases.

Lemma set_stdout_same (w : world) : set_stdout w (stdout w) = w.
Proof. now destruct w. Qed.

Lemma enumerate_length {A} (l : list A) : length (enumerate l) = length l.
Proof. unfold enumerate. rewrite length_combine, length_seq. lia. Qed.

Lemma nth_error_combine_seq {A} (l : list A) (k i : nat) (x : A) :
  nth_error l i = Some x ->
  nth_error (combine (seq k (length l)) l) i = Some (k + i, x).
Proof.
  revert k i; induction l as [|y l IH]; intros k [|i] H; simpl in *;
    try discriminate.
  - injection H as ->. now rewrite Nat.add_0_r.
  - rewrite (IH (S k) i H). f_equal. f_equal. lia.
Qed.

Lemma nth_error_enumerate {A} (l : list A) (i : nat) (x : A) :
  nth_error l i = Some x -> nth_error (enumerate l) i = Some (i, x).
Proof. intros H. unfold enumerate. now rewrite (nth_error_combine_seq _ 0 _ _ H). Qed.

(** *** The padding loop *)

Lemma padding_nil (m n : nat) : n <= m -> padding m n = [].
Proof. intros H. unfold padding. now replace (n - m) with 0 by lia. Qed.

Lemma padding_cons (m n : nat) :
  m < n ->
  padding m n = ("📊 Visualization " ++ str (m + 1)) :: padding (S m) n.
Proof.
  intros H. unfold padding.
  replace (n - m) with (S (n - S m)) by lia. reflexivity.
Qed.

Lemma padding_length (m n : nat) : length (padding m n) = n - m.
Proof. unfold padding. now rewrite length_map, length_seq. Qed.

Lemma nth_error_padding (m n i : nat) :
  m + i < n ->
  nth_error (padding m n) i = Some ("📊 Visualization " ++ str (m + i + 1)).
Proof.
  intros H. unfold padding.
  rewrite nth_error_map, nth_error_nth' with (d := 0)
    by (rewrite length_seq; lia).
  rewrite seq_nth by lia. reflexivity.
Qed.

(** The loop ends because its condition fails, before the fuel does. *)
Lemma pad_titles_run (fuel : nat) (a : loc) (file_paths : list string)
    (w : world) :
  length file_paths - length (heap w a) < fuel ->
  exists w',
    pad_titles fuel a file_paths w = (w', Ret tt) /\
    padded w a (length file_paths) w'.
Proof.
  revert w; induction fuel as [|fuel IH]; intros w Hfuel; [lia|].
  cbn [pad_titles]. unfold bind at 1, list_get at 1.
  destruct (Nat.ltb_spec (length (heap w a)) (length file_paths)) as [Hlt|Hge].
  - unfold bind at 1, list_append at 1.
    set (w1 := set_heap w _ _).
    assert (H1 : heap w1 a = (heap w a ++ [padding_title (heap w a)])%list).
    { subst w1. cbn. now rewrite Nat.eqb_refl. }
    destruct (IH w1) as (w' & Hrun & Hf & Hwf & Hout & Hnext & Ha & Hb).
    { rewrite H1, length_app. simpl. lia. }
    exists w'. split; [exact Hrun|].
    repeat split; try (rewrite ?Hf, ?Hwf, ?Hout, ?Hnext; reflexivity).
    + rewrite Ha, H1, length_app. cbn [length].
      rewrite (padding_cons _ _ Hlt), <- app_assoc.
      unfold padding_title. rewrite Nat.add_1_r. reflexivity.
    + intros b Hne. rewrite (Hb b Hne). subst w1. cbn.
      apply Nat.eqb_neq in Hne. now rewrite Hne.
  - exists w. split; [reflexivity|]. repeat split.
    now rewrite padding_nil, app_nil_r.
Qed.

End Phases.

Section ReadLoop.

Lemma map_snd_combine_seq {A B} (g : A -> B) (l : list A) (k : nat) :
  map (fun item => g (snd item)) (combine (seq k (length l)) l) = map g l.
Proof.
  revert k; induction l as [|x l IH]; intros k; simpl; [reflexivity|].
  now rewrite IH.
Qed.

Lemma item_specs_enumerate (w : world) (file_paths : list string) :
  map (item_spec w) (enumerate file_paths) = recorded_specs w file_paths.
Proof.
  exact (map_snd_combine_seq (fun p => file_spec (files w p)) file_paths 0).
Qed.

(** One round of the loop, by the state of the file. *)
Lemma read_spec_step (specs : list string) (item : nat * string) (w : world) :
  read_spec specs item w
  = match files w (snd item) with
    | Readable html_content =>
        (set_stdout w (stdout w ++ [item_status w item])%list,
         Ret (specs ++ [extract_spec html_content])%list)
    | Fails e =>
        if is_FileNotFoundError e
        then (set_stdout w (stdout w ++ [item_status w item])%list,
              Ret (specs ++ ["{}"])%list)
        else (w, Raise e)
    end.
Proof.
  destruct item as [i file_path].
  unfold read_spec, try_except, bind, read_file, item_status. cbn [fst snd].
  destruct (files w file_path) as [text|e]; [reflexivity|].
  now destruct e.
Qed.

Lemma read_spec_recoverable (specs : list string) (item : nat * string)
    (w : world) :
  item_recoverable w item = true ->
  read_spec specs item w
  = (set_stdout w (stdout w ++ [item_status w item])%list,
     Ret (specs ++ [item_spec w item])%list).
Proof.
  rewrite read_spec_step. unfold item_recoverable, item_spec.
  destruct (files w (snd item)) as [text|e]; cbn; [reflexivity|].
  now intros ->.
Qed.

Lemma for_each_cons {A B} (body : B -> A -> M B) (x : A) (l : list A)
    (acc : B) (w : world) :
  for_each body (x :: l) acc w
  = match body acc x w with
    | (w', Ret acc') => for_each body l acc' w'
    | (w', Raise e) => (w', Raise e)
    | (w', OutOfFuel) => (w', OutOfFuel)
    end.
Proof. reflexivity. Qed.

(** When every document is readable or missing, the loop returns one
    specification and prints one line for each, in order. *)
Lemma read_loop_ok (items : list (nat * string)) (acc : list string)
    (w : world) :
  forallb (item_recoverable w) items = true ->
  for_each read_spec items acc w
  = (set_stdout w (stdout w ++ map (item_status w) items)%list,
     Ret (acc ++ map (item_spec w) items)%list).
Proof.
  revert acc w; induction items as [|item items IH]; intros acc w Hall.
  - cbn. now rewrite !app_nil_r, set_stdout_same.
  - cbn [forallb] in Hall. apply andb_true_iff in Hall as [Hitem Hall].
    rewrite for_each_cons, read_spec_recoverable, IH by assumption.
    cbn [map]. unfold set_stdout. cbn [files write_fault heap next_loc stdout].
    now rewrite <- !app_assoc.
Qed.

(** In general the loop stops at the first document whose read raises
    something else, having printed the lines of the documents before. *)
Lemma read_loop_raise (good : list (nat * string)) (item : nat * string)
    (rest : list (nat * string)) (acc : list string) (w : world)
    (e : pyexn) :
  forallb (item_recoverable w) good = true ->
  files w (snd item) = Fails e ->
  is_FileNotFoundError e = false ->
  for_each read_spec (good ++ item :: rest) acc w
  = (set_stdout w (stdout w ++ map (item_status w) good)%list, Raise e).
Proof.
  revert acc w; induction good as [|x good IH]; intros acc w Hall Hitem He.
  - rewrite app_nil_l, for_each_cons, read_spec_step, Hitem, He. cbn [map].
    now rewrite app_nil_r, set_stdout_same.
  - cbn [forallb] in Hall. apply andb_true_iff in Hall as [Hx Hall].
    rewrite <- app_comm_cons, for_each_cons, read_spec_recoverable
      by exact Hx.
    rewrite IH; try assumption.
    cbn [map]. unfold set_stdout. cbn [files write_fault heap next_loc stdout].
    now rewrite <- !app_assoc.
Qed.

(** Every list of items splits at its first item that is not
    recoverable, if there is one. *)
Lemma first_unrecoverable (w : world) (items : list (nat * string)) :
  forallb (item_recoverable w) items = true \/
  exists good item rest,
    items = (good ++ item :: rest)%list /\
    forallb (item_recoverable w) good = true /\
    item_recoverable w item = false.
Proof.
  induction items as [|x items IH]; [now left|].
  destruct (item_recoverable w x) eqn:Hx.
  - destruct IH as [IH | (good & item & rest & -> & Hgood & Hitem)].
    + left. cbn. now rewrite Hx.
    + right. exists (x :: good), item, rest. repeat split; [|exact Hitem].
      cbn. now rewrite Hx.
  - right. exists [], x, items. now repeat split.
Qed.

Lemma unrecoverable_fails (w : world) (item : nat * string) :
  item_recoverable w item = false ->
  exists e, files w (snd item) = Fails e /\ is_FileNotFoundError e = false.
Proof.
  unfold item_recoverable.
  destruct (files w (snd item)) as [t|e]; cbn; [discriminate|].
  intros H. now exists e.
Qed.

(** The loop returns exactly when every document is recoverable. *)
Lemma read_loop_ret_inv (items : list (nat * string)) (acc : list string)
    (w w' : world) (specs : list string) :
  for_each read_spec items acc w = (w', Ret specs) ->
  forallb (item_recoverable w) items = true.
Proof.
  intros H.
  destruct (first_unrecoverable w items)
    as [Hall | (good & item & rest & -> & Hgood & Hitem)]; [exact Hall|].
  destruct (unrecoverable_fails w item Hitem) as (e & Hf & He).
  rewrite (read_loop_raise good item rest acc w e Hgood Hf He) in H.
  discriminate.
Qed.

(** The loop never runs out of fuel: it has none to run out of. *)
Lemma read_loop_total (items : list (nat * string)) (acc : list string)
    (w : world) :
  snd (for_each read_spec items acc w) <> OutOfFuel.
Proof.
  destruct (first_unrecoverable w items)
    as [Hall | (good & item & rest & -> & Hgood & Hitem)].
  - rewrite read_loop_ok by exact Hall. discriminate.
  - destruct (unrecoverable_fails _ _ Hitem) as (e & Hf & He).
    rewrite (read_loop_raise good item rest acc w e Hgood Hf He).
    discriminate.
Qed.

End ReadLoop.

Section Assembly.

Lemma fold_left_indexed {A} (f : nat -> A -> string)
    (items : list (nat * A)) (init : string) :
  fold_left (fun acc '(i, x) => acc ++ f i x) items init
  = init ++ flatten (map (fun item => f (fst item) (snd item)) items).
Proof.
  revert init; induction items as [|[i x] items IH]; intros init; cbn.
  - now rewrite append_nil_r.
  - now rewrite IH, append_assoc.
Qed.

Lemma fold_left_plain {A} (f : A -> string) (l : list A) (init : string) :
  fold_left (fun acc x => acc ++ f x) l init = init ++ flatten (map f l).
Proof.
  revert init; induction l as [|x l IH]; intros init; cbn.
  - now rewrite append_nil_r.
  - now rewrite IH, append_assoc.
Qed.

(** The three accumulating loops produce one fragment for each item, in
    order. *)
Lemma build_vis_divs_flatten (titles : list string) :
  build_vis_divs titles
  = flatten (map (fun item => vis_div (fst item) (snd item))
                 (enumerate titles)).
Proof. unfold build_vis_divs. now rewrite fold_left_indexed. Qed.

Lemma build_spec_declarations_flatten (specs : list string) :
  build_spec_declarations specs
  = flatten (map (fun item => spec_declaration (fst item) (snd item))
                 (enumerate specs)).
Proof. unfold build_spec_declarations. now rewrite fold_left_indexed. Qed.

Lemma build_render_code_flatten (specs : list string) :
  build_render_code specs
  = flatten (map render_call (seq 0 (length specs))).
Proof. unfold build_render_code. now rewrite fold_left_plain. Qed.

(** The function, phase by phase. *)
Lemma merge_unfold (file_paths : list string) (output_path : string)
    (a : loc) (w : world) :
  merge_html_files file_paths output_path (Some a) w
  = match pad_titles (S (length file_paths)) a file_paths w with
    | (w1, Ret _) =>
        match read_specs file_paths w1 with
        | (w2, Ret specs) =>
            let merged_html :=
              build_page (firstn (length file_paths) (heap w2 a)) specs in
            match write_file output_path merged_html w2 with
            | (w3, Ret _) => print (summary_line file_paths output_path) w3
            | (w3, Raise e) => (w3, Raise e)
            | (w3, OutOfFuel) => (w3, OutOfFuel)
            end
        | (w2, Raise e) => (w2, Raise e)
        | (w2, OutOfFuel) => (w2, OutOfFuel)
        end
    | (w1, Raise e) => (w1, Raise e)
    | (w1, OutOfFuel) => (w1, OutOfFuel)
    end.
Proof.
  unfold merge_html_files. unfold bind at 1, ret at 1. unfold bind at 1.
  destruct (pad_titles _ a file_paths w) as [w1 [[]|e|]]; reflexivity.
Qed.

(** With [titles=None] the function runs on a new list object holding
    the default titles. *)
Lemma merge_none (file_paths : list string) (output_path : string)
    (w : world) :
  merge_html_files file_paths output_path None w
  = merge_html_files file_paths output_path (Some (next_loc w))
      (set_heap w (fun a => if Nat.eqb a (next_loc w) then default_titles
                            else heap w a)
                (S (next_loc w))).
Proof. reflexivity. Qed.

End Assembly.

(** ** Runs of [merge_html_files] *)

Section Runs.

Lemma same_files (w1 w : world) :
  files w1 = files w ->
  item_recoverable w1 = item_recoverable w /\
  item_status w1 = item_status w /\
  item_spec w1 = item_spec w.
Proof.
  intros H. unfold item_recoverable, item_status, item_spec.
  now rewrite H.
Qed.

(** Runs the padding loop of a call on the list at [a] and names what is
    known of the world [w1] it leaves. *)
Ltac after_padding file_paths a w :=
  rewrite merge_unfold;
  destruct (pad_titles_run (S (length file_paths)) a file_paths w)
    as (w1 & -> & Hf & Hwf & Hout & Hnext & Ha & Hb); [lia|];
  destruct (same_files _ _ Hf) as (Hrec & Hsta & Hspe);
  unfold read_specs.

(** A call on the caller's list at [a] whose documents are all readable
    or missing, with a writable output path, completes. *)
Lemma merge_some_ok (file_paths : list string) (output_path : string)
    (a : loc) (w : world) :
  forallb (item_recoverable w) (enumerate file_paths) = true ->
  write_fault w output_path = None ->
  exists w',
    merge_html_files file_paths output_path (Some a) w = (w', Ret tt) /\
    completed w file_paths output_path (Some a) w'.
Proof.
  intros Hall Hwr. after_padding file_paths a w. rewrite read_loop_ok by (now rewrite Hrec).
  cbv zeta. unfold write_file.
  cbn [set_stdout files write_fault heap next_loc stdout].
  rewrite Hwf, Hwr. eexists. split; [reflexivity|].
  unfold completed, print, set_stdout, set_files, status_lines,
    effective_titles, titles_before, titles_loc.
  cbn [files write_fault heap next_loc stdout app].
  rewrite Hf, Hwf, Hout, Ha, Hsta, Hspe, item_specs_enumerate.
  repeat split.
  - now rewrite <- app_assoc.
  - exact Hb.
Qed.

Lemma merge_some_write_fails (file_paths : list string)
    (output_path : string) (a : loc) (w : world) (e : pyexn) :
  forallb (item_recoverable w) (enumerate file_paths) = true ->
  write_fault w output_path = Some e ->
  snd (merge_html_files file_paths output_path (Some a) w) = Raise e.
Proof.
  intros Hall Hwr. after_padding file_paths a w. rewrite read_loop_ok by (now rewrite Hrec).
  cbv zeta. unfold write_file.
  cbn [set_stdout files write_fault heap next_loc stdout].
  now rewrite Hwf, Hwr.
Qed.

Lemma merge_some_read_fails (file_paths : list string)
    (output_path : string) (a : loc) (w : world)
    (good : list (nat * string)) (item : nat * string)
    (rest : list (nat * string)) (e : pyexn) :
  enumerate file_paths = (good ++ item :: rest)%list ->
  forallb (item_recoverable w) good = true ->
  files w (snd item) = Fails e ->
  is_FileNotFoundError e = false ->
  exists w',
    merge_html_files file_paths output_path (Some a) w = (w', Raise e) /\
    files w' = files w /\
    stdout w' = (stdout w ++ map (item_status w) good)%list.
Proof.
  intros Hsplit Hgood Hitem He. after_padding file_paths a w. rewrite Hsplit.
  rewrite (read_loop_raise good item rest [] w1 e);
    [| now rewrite Hrec | now rewrite Hf | exact He].
  eexists. split; [reflexivity|]. cbn. now rewrite Hsta, Hout.
Qed.

(** Whatever the outcome, the list object has been padded, and the call
    has not run out of fuel. *)
Lemma merge_some_any (file_paths : list string) (output_path : string)
    (a : loc) (w : world) :
  let r := merge_html_files file_paths output_path (Some a) w in
  exists w1,
    padded w a (length file_paths) w1 /\
    heap (fst r) = heap w1 /\
    snd r <> OutOfFuel.
Proof.
  cbv zeta. rewrite merge_unfold.
  destruct (pad_titles_run (S (length file_paths)) a file_paths w)
    as (w1 & -> & Hpad); [lia|].
  exists w1. split; [exact Hpad|]. unfold read_specs.
  destruct (first_unrecoverable w1 (enumerate file_paths))
    as [Hall | (good & item & rest & -> & Hgood & Hitem)].
  - rewrite read_loop_ok by exact Hall. cbv zeta. unfold write_file.
    cbn [set_stdout files write_fault heap next_loc stdout].
    destruct (write_fault w1 output_path); cbn; split;
      try reflexivity; discriminate.
  - destruct (unrecoverable_fails w1 item Hitem) as (e & Hf & He).
    rewrite (read_loop_raise good item rest [] w1 e Hgood Hf He).
    cbn. split; [reflexivity | discriminate].
Qed.

(** A call that returns found every document readable or missing and
    the output path writable. *)
Lemma merge_some_ret_inv (file_paths : list string) (output_path : string)
    (a : loc) (w w' : world) :
  merge_html_files file_paths output_path (Some a) w = (w', Ret tt) ->
  forallb (item_recoverable w) (enumerate file_paths) = true /\
  write_fault w output_path = None.
Proof.
  intros Hrun.
  destruct (first_unrecoverable w (enumerate file_paths))
    as [Hall | (good & item & rest & Hsplit & Hgood & Hitem)].
  - split; [exact Hall|].
    destruct (write_fault w output_path) as [e|] eqn:Hwr; [|reflexivity].
    pose proof (merge_some_write_fails file_paths output_path a w e Hall Hwr)
      as H.
    rewrite Hrun in H. discriminate.
  - destruct (unrecoverable_fails w item Hitem) as (e & Hf & He).
    destruct (merge_some_read_fails file_paths output_path a w
                good item rest e Hsplit Hgood Hf He) as (w2 & H & _).
    rewrite Hrun in H. discriminate.
Qed.

Lemma merge_some_completed (file_paths : list string)
    (output_path : string) (a : loc) (w w' : world) :
  merge_html_files file_paths output_path (Some a) w = (w', Ret tt) ->
  completed w file_paths output_path (Some a) w'.
Proof.
  intros Hrun.
  destruct (merge_some_ret_inv _ _ _ _ _ Hrun) as (Hall & Hwr).
  destruct (merge_some_ok file_paths output_path a w Hall Hwr)
    as (w2 & Hrun2 & Hdone).
  rewrite Hrun in Hrun2. now injection Hrun2 as <-.
Qed.

(** The same for either form of the [titles] argument. *)
Lemma merge_completed (file_paths : list string) (output_path : string)
    (titles : option loc) (w w' : world) :
  merge_html_files file_paths output_path titles w = (w', Ret tt) ->
  completed w file_paths output_path titles w'.
Proof.
  destruct titles as [a|]; [apply merge_some_completed|].
  rewrite merge_none. intros Hrun.
  apply merge_some_completed in Hrun.
  destruct Hrun as (Hf & Hout & Ha & Hb & Hwf).
  unfold completed, titles_before, titles_loc in *.
  cbn [set_heap files write_fault heap next_loc stdout] in *.
  rewrite Nat.eqb_refl in Hf, Ha.
  repeat split; [exact Hf | exact Hout | exact Ha | | exact Hwf].
  intros b Hne. rewrite (Hb b Hne).
  apply Nat.eqb_neq in Hne. now rewrite Hne.
Qed.

Lemma merge_returns (file_paths : list string) (output_path : string)
    (titles : option loc) (w : world) :
  forallb (item_recoverable w) (enumerate file_paths) = true ->
  write_fault w output_path = None ->
  exists w',
    merge_html_files file_paths output_path titles w = (w', Ret tt) /\
    completed w file_paths output_path titles w'.
Proof.
  intros Hall Hwr. destruct titles as [a|]; [now apply merge_some_ok|].
  rewrite merge_none.
  destruct (merge_some_ok file_paths output_path (next_loc w)
              (set_heap w (fun a => if Nat.eqb a (next_loc w)
                                    then default_titles else heap w a)
                        (S (next_loc w))) Hall Hwr)
    as (w' & Hrun & _).
  exists w'. split; [exact Hrun|].
  apply merge_completed. now rewrite merge_none.
Qed.

Lemma merge_total (file_paths : list string) (output_path : string)
    (titles : option loc) (w : world) :
  snd (merge_html_files file_paths output_path titles w) <> OutOfFuel.
Proof.
  destruct titles as [a|].
  - destruct (merge_some_any file_paths output_path a w)
      as (w1 & _ & _ & H). exact H.
  - rewrite merge_none.
    destruct (merge_some_any file_paths output_path (next_loc w)
                (set_heap w (fun a => if Nat.eqb a (next_loc w)
                                      then default_titles else heap w a)
                          (S (next_loc w))))
      as (w1 & _ & _ & H). exact H.
Qed.

(** *** The outcome of a call *)

Lemma map_snd_enumerate (file_paths : list string) :
  map snd (enumerate file_paths) = file_paths.
Proof.
  rewrite <- (map_id file_paths) at 2.
  exact (map_snd_combine_seq (fun p => p) file_paths 0).
Qed.

Lemma first_failure_none (w : world) (items : list (nat * string)) :
  forallb (item_recoverable w) items = true ->
  first_failure w (map snd items) = None.
Proof.
  induction items as [|x items IH]; [reflexivity|].
  cbn [forallb map first_failure]. intros H.
  apply andb_true_iff in H as [Hx H]. unfold item_recoverable in Hx.
  destruct (files w (snd x)) as [t|e]; cbn in Hx; [|rewrite Hx]; now apply IH.
Qed.

Lemma first_failure_some (w : world) (good : list (nat * string))
    (item : nat * string) (rest : list (nat * string)) (e : pyexn) :
  forallb (item_recoverable w) good = true ->
  files w (snd item) = Fails e ->
  is_FileNotFoundError e = false ->
  first_failure w (map snd (good ++ item :: rest)) = Some e.
Proof.
  intros Hgood Hitem He. induction good as [|x good IH].
  - cbn [app map first_failure]. now rewrite Hitem, He.
  - cbn [forallb] in Hgood. apply andb_true_iff in Hgood as [Hx Hgood].
    cbn [app map first_failure]. unfold item_recoverable in Hx.
    destruct (files w (snd x)) as [t|e']; cbn in Hx; [|rewrite Hx];
      now apply IH.
Qed.

Lemma merge_some_outcome (file_paths : list string) (output_path : string)
    (a : loc) (w : world) :
  snd (merge_html_files file_paths output_path (Some a) w)
  = run_outcome w file_paths output_path.
Proof.
  unfold run_outcome.
  rewrite <- (map_snd_enumerate file_paths) at 2.
  destruct (first_unrecoverable w (enumerate file_paths))
    as [Hall | (good & item & rest & Hsplit & Hgood & Hitem)].
  - rewrite (first_failure_none w _ Hall).
    destruct (write_fault w output_path) as [e|] eqn:Hwr.
    + now apply merge_some_write_fails.
    + destruct (merge_some_ok file_paths output_path a w Hall Hwr)
        as (w' & -> & _). reflexivity.
  - destruct (unrecoverable_fails w item Hitem) as (e & Hf & He).
    rewrite Hsplit, (first_failure_some w good item rest e Hgood Hf He).
    destruct (merge_some_read_fails file_paths output_path a w
                good item rest e Hsplit Hgood Hf He) as (w' & -> & _).
    reflexivity.
Qed.

(** The outcome and the recorded values only depend on the files named
    in [file_paths]. *)
Lemma first_failure_ext (w1 w2 : world) (file_paths : list string) :
  (forall p, In p file_paths -> files w1 p = files w2 p) ->
  first_failure w1 file_paths = first_failure w2 file_paths.
Proof.
  induction file_paths as [|p rest IH]; intros Hext; [reflexivity|].
  cbn [first_failure]. rewrite (Hext p (or_introl eq_refl)).
  rewrite IH; [reflexivity|]. intros q Hq. apply Hext. now right.
Qed.

Lemma merge_outcome (file_paths : list string) (output_path : string)
    (titles : option loc) (w : world) :
  snd (merge_html_files file_paths output_path titles w)
  = run_outcome w file_paths output_path.
Proof.
  destruct titles as [a|]; [apply merge_some_outcome|].
  rewrite merge_none, merge_some_outcome. unfold run_outcome.
  now rewrite (first_failure_ext _ w).
Qed.

Lemma recorded_specs_ext (w1 w2 : world) (file_paths : list string) :
  (forall p, In p file_paths -> files w1 p = files w2 p) ->
  recorded_specs w1 file_paths = recorded_specs w2 file_paths.
Proof.
  intros Hext. unfold recorded_specs. apply map_ext_in.
  intros p Hp. now rewrite (Hext p Hp).
Qed.

Lemma in_enumerate (file_paths : list string) (item : nat * string) :
  In item (enumerate file_paths) -> In (snd item) file_paths.
Proof.
  intros H. rewrite <- (map_snd_enumerate file_paths). now apply in_map.
Qed.

Lemma status_lines_ext (w1 w2 : world) (file_paths : list string) :
  (forall p, In p file_paths -> files w1 p = files w2 p) ->
  status_lines w1 file_paths = status_lines w2 file_paths.
Proof.
  intros Hext. unfold status_lines. apply map_ext_in.
  intros item Hitem. unfold item_status.
  now rewrite (Hext _ (in_enumerate _ _ Hitem)).
Qed.

Lemma completed_page (w : world) (file_paths : list string)
    (output_path : string) (titles : option loc) (w' : world) :
  completed w file_paths output_path titles w' ->
  files w' output_path
  = Readable (build_page
                (effective_titles (titles_before w titles)
                                  (length file_paths))
                (recorded_specs w file_paths)).
Proof. intros (Hf & _). rewrite Hf. now rewrite String.eqb_refl. Qed.

End Runs.

(** ** Titles *)

Section Titles.

Lemma effective_titles_length (ts : list string) (n : nat) :
  length (effective_titles ts n) = n.
Proof.
  unfold effective_titles.
  rewrite length_firstn, length_app, padding_length. lia.
Qed.

Lemma effective_titles_enough (ts : list string) (n : nat) :
  n <= length ts -> effective_titles ts n = firstn n ts.
Proof.
  intros H. unfold effective_titles. now rewrite padding_nil, app_nil_r.
Qed.

Lemma effective_titles_kept (ts : list string) (n k : nat) :
  k < length ts -> k < n ->
  nth_error (effective_titles ts n) k = nth_error ts k.
Proof.
  intros Hk Hn. unfold effective_titles. rewrite nth_error_firstn.
  destruct (Nat.ltb_spec k n); [|lia]. now apply nth_error_app1.
Qed.

Lemma effective_titles_padded (ts : list string) (n k : nat) :
  length ts <= k -> k < n ->
  nth_error (effective_titles ts n) k
  = Some ("📊 Visualization " ++ str (k + 1)).
Proof.
  intros Hk Hn. unfold effective_titles. rewrite nth_error_firstn.
  destruct (Nat.ltb_spec k n); [|lia].
  rewrite nth_error_app2, nth_error_padding by lia.
  now replace (length ts + (k - length ts)) with k by lia.
Qed.

(** C3, as amended.  For a call on [N] paths with the caller's title list
    of length [M], the page is built with the first [N] entries of the
    list after the call; that effective list has length exactly [N];
    when [M >= N] it is the first [N] supplied titles, unchanged; when
    [M < N] the supplied titles come first and the entry at each position
    [k + 1] from [M + 1] to [N] is the chart emoji, a space, the word
    Visualization, a space and the position in decimal. *)
Theorem effective_titles_of_run (w w' : world) (file_paths : list string)
    (output_path : string) (a : loc) :
  merge_html_files file_paths output_path (Some a) w = (w', Ret tt) ->
  let n := length file_paths in
  let supplied := heap w a in
  let effective := firstn n (heap w' a) in
  files w' output_path
  = Readable (build_page effective (recorded_specs w file_paths)) /\
  length effective = n /\
  (n <= length supplied -> effective = firstn n supplied) /\
  (length supplied < n ->
   forall k, k < n ->
     (k < length supplied -> nth_error effective k = nth_error supplied k) /\
     (length supplied <= k ->
      nth_error effective k = Some ("📊 Visualization " ++ str (k + 1)))).
Proof.
  intros Hrun n supplied effective.
  pose proof (merge_completed _ _ _ _ _ Hrun) as Hdone.
  pose proof (completed_page _ _ _ _ _ Hdone) as Hpage.
  destruct Hdone as (_ & _ & Ha & _).
  cbn [titles_before titles_loc] in Ha, Hpage.
  assert (Heff : effective = effective_titles supplied n).
  { subst effective. now rewrite Ha. }
  rewrite Heff. repeat split.
  - exact Hpage.
  - apply effective_titles_length.
  - apply effective_titles_enough.
  - intros Hk. now apply effective_titles_kept.
  - intros Hk. now apply effective_titles_padded.
Qed.

(** C10.  A call given the caller's list with fewer titles than paths
    appends the synthesized titles to that very list object: after the
    call, whatever its outcome, the object at the caller's address holds
    the old titles followed by the padding, and is as long as the list
    of paths. *)
Theorem titles_padded_in_place (w : world) (file_paths : list string)
    (output_path : string) (a : loc) :
  length (heap w a) < length file_paths ->
  let w' := fst (merge_html_files file_paths output_path (Some a) w) in
  heap w' a
  = (heap w a ++ padding (length (heap w a)) (length file_paths))%list /\
  heap w' a <> heap w a /\
  length file_paths <= length (heap w' a).
Proof.
  intros Hlt w'.
  destruct (merge_some_any file_paths output_path a w)
    as (w1 & (_ & _ & _ & _ & Ha & _) & Hheap & _).
  fold w' in Hheap. rewrite Hheap, Ha. repeat split.
  - intros H. apply (f_equal (@length string)) in H.
    rewrite length_app, padding_length in H. lia.
  - rewrite length_app, padding_length. lia.
Qed.

End Titles.

(** ** Documents *)

Section Documents.

Lemma nth_error_recorded_specs (w : world) (file_paths : list string)
    (k : nat) (p : string) :
  nth_error file_paths k = Some p ->
  nth_error (recorded_specs w file_paths) k = Some (file_spec (files w p)).
Proof.
  intros H. unfold recorded_specs. now rewrite nth_error_map, H.
Qed.

Lemma nth_error_status_lines (w : world) (file_paths : list string)
    (k : nat) (p : string) :
  nth_error file_paths k = Some p ->
  nth_error (status_lines w file_paths) k
  = Some (file_status k p (files w p)).
Proof.
  intros H. unfold status_lines.
  now rewrite nth_error_map, (nth_error_enumerate _ _ _ H).
Qed.

Lemma recorded_specs_length (w : world) (file_paths : list string) :
  length (recorded_specs w file_paths) = length file_paths.
Proof. unfold recorded_specs. apply length_map. Qed.

Lemma status_lines_length (w : world) (file_paths : list string) :
  length (status_lines w file_paths) = length file_paths.
Proof. unfold status_lines. now rewrite length_map, enumerate_length. Qed.

Lemma file_spec_nonempty (f : file) : file_spec f <> EmptyString.
Proof. destruct f; cbn; [apply extract_spec_nonempty | discriminate]. Qed.

Lemma recorded_specs_nonempty (w : world) (file_paths : list string) :
  Forall (fun spec => spec <> EmptyString) (recorded_specs w file_paths).
Proof.
  unfold recorded_specs. apply Forall_map, Forall_forall.
  intros p _. apply file_spec_nonempty.
Qed.

(** C2.  On a text in which the pattern does not occur, [extract_spec]
    returns the two characters [{}].  In a call that completes, the
    specifications built into the page are never empty and the lines
    printed are one status line for each path and the summary; for a
    readable document without the pattern the specification is [{}] and
    its line is the line of a successful read, not a warning. *)
Theorem missing_pattern_yields_placeholder :
  (forall text, ~ pattern_occurs text -> extract_spec text = "{}") /\
  (forall (w w' : world) (file_paths : list string) (output_path : string)
          (titles : option loc),
      merge_html_files file_paths output_path titles w = (w', Ret tt) ->
      let specs := recorded_specs w file_paths in
      let lines := status_lines w file_paths in
      (exists effective,
          files w' output_path = Readable (build_page effective specs)) /\
      stdout w'
      = (stdout w ++ lines ++ [summary_line file_paths output_path])%list /\
      length specs = length file_paths /\
      length lines = length file_paths /\
      Forall (fun spec => spec <> EmptyString) specs /\
      forall k path text,
        nth_error file_paths k = Some path ->
        files w path = Readable text ->
        ~ pattern_occurs text ->
        nth_error specs k = Some "{}" /\
        nth_error lines k
        = Some ("✓ 已读取文件 " ++ str (k + 1) ++ ": " ++ path)).
Proof.
  split; [exact extract_spec_no_match|].
  intros w w' file_paths output_path titles Hrun specs lines.
  pose proof (merge_completed _ _ _ _ _ Hrun) as Hdone.
  pose proof (completed_page _ _ _ _ _ Hdone) as Hpage.
  destruct Hdone as (_ & Hout & _).
  split; [eexists; exact Hpage|].
  split; [exact Hout|].
  split; [apply recorded_specs_length|].
  split; [apply status_lines_length|].
  split; [apply recorded_specs_nonempty|].
  intros k path text Hk Hread Hno. subst specs lines. split.
  - rewrite (nth_error_recorded_specs _ _ _ _ Hk), Hread. cbn.
    now rewrite extract_spec_no_match.
  - now rewrite (nth_error_status_lines _ _ _ _ Hk), Hread.
Qed.

(** Replacing a file that is readable or missing by one that is readable
    or missing does not change where the read loop stops. *)
Lemma first_failure_recoverable (w1 w2 : world) (file_paths : list string) :
  (forall p, In p file_paths ->
             files w1 p = files w2 p \/
             (recoverable (files w1 p) = true /\
              recoverable (files w2 p) = true)) ->
  first_failure w1 file_paths = first_failure w2 file_paths.
Proof.
  induction file_paths as [|p rest IH]; intros Hext; [reflexivity|].
  cbn [first_failure].
  rewrite IH by (intros q Hq; apply Hext; now right).
  destruct (Hext p (or_introl eq_refl)) as [-> | [H1 H2]]; [reflexivity|].
  destruct (files w1 p) as [t1|e1], (files w2 p) as [t2|e2];
    cbn in H1, H2; rewrite ?H1, ?H2; reflexivity.
Qed.

Lemma nth_error_enumerate_map {A} (l : list A) (i : nat) :
  nth_error (enumerate l) i = option_map (fun x => (i, x)) (nth_error l i).
Proof.
  destruct (nth_error l i) as [x|] eqn:H; cbn.
  - now apply nth_error_enumerate.
  - apply nth_error_None. rewrite enumerate_length.
    now apply nth_error_None.
Qed.

(** The specification and the line of a position only depend on the file
    at the path of that position. *)
Lemma position_ext (w w2 : world) (file_paths : list string) (j : nat) :
  (forall p, nth_error file_paths j = Some p -> files w2 p = files w p) ->
  nth_error (recorded_specs w2 file_paths) j
  = nth_error (recorded_specs w file_paths) j /\
  nth_error (status_lines w2 file_paths) j
  = nth_error (status_lines w file_paths) j.
Proof.
  intros Hext. unfold recorded_specs, status_lines.
  rewrite !nth_error_map, nth_error_enumerate_map.
  destruct (nth_error file_paths j) as [p|]; cbn; [|now split].
  unfold item_status. cbn [fst snd]. now rewrite (Hext p eq_refl).
Qed.

(** C4, as amended.  A document at position [k] that is missing (its
    read raises [FileNotFoundError]) is handled without aborting.  Compare
    the call with the one in a world [w2] where that document is readable
    and the documents of the other positions, the titles and the output
    path are as they are: both calls end alike; when the call completes,
    the specification recorded at position [k] is [{}], the line printed
    for it is the warning naming the path, the titles of the page are the
    same in both, and at every position other than [k] the specification
    and the line are the same in both. *)
Theorem missing_document_is_recoverable (w w2 : world)
    (file_paths : list string) (output_path : string)
    (titles : option loc) (k : nat) (path text : string) :
  nth_error file_paths k = Some path ->
  files w path = Fails FileNotFoundError ->
  files w2 path = Readable text ->
  (forall j p, j <> k -> nth_error file_paths j = Some p ->
               files w2 p = files w p) ->
  write_fault w2 output_path = write_fault w output_path ->
  titles_before w2 titles = titles_before w titles ->
  let n := length file_paths in
  let effective := effective_titles (titles_before w titles) n in
  snd (merge_html_files file_paths output_path titles w)
  = snd (merge_html_files file_paths output_path titles w2) /\
  (forall w',
      merge_html_files file_paths output_path titles w = (w', Ret tt) ->
      files w' output_path
      = Readable (build_page effective (recorded_specs w file_paths)) /\
      stdout w'
      = (stdout w ++ status_lines w file_paths
           ++ [summary_line file_paths output_path])%list /\
      nth_error (recorded_specs w file_paths) k = Some "{}" /\
      nth_error (status_lines w file_paths) k
      = Some ("✗ 警告: 找不到文件 " ++ path) /\
      exists w2',
        merge_html_files file_paths output_path titles w2 = (w2', Ret tt) /\
        files w2' output_path
        = Readable (build_page effective (recorded_specs w2 file_paths)) /\
        stdout w2'
        = (stdout w2 ++ status_lines w2 file_paths
             ++ [summary_line file_paths output_path])%list /\
        forall j,
          j <> k ->
          nth_error (recorded_specs w2 file_paths) j
          = nth_error (recorded_specs w file_paths) j /\
          nth_error (status_lines w2 file_paths) j
          = nth_error (status_lines w file_paths) j).
Proof.
  intros Hk Hmiss Hread Hothers Hwr Htitles n effective.
  assert (Hsame : snd (merge_html_files file_paths output_path titles w)
                  = snd (merge_html_files file_paths output_path titles w2)).
  { rewrite !merge_outcome. unfold run_outcome. rewrite Hwr.
    rewrite (first_failure_recoverable w w2); [reflexivity|].
    intros p Hp. apply In_nth_error in Hp as (j & Hj).
    destruct (Nat.eq_dec j k) as [->|Hne].
    - right. rewrite Hk in Hj. injection Hj as <-.
      now rewrite Hmiss, Hread.
    - left. symmetry. now apply (Hothers j). }
  split; [exact Hsame|].
  intros w' Hrun.
  pose proof (merge_completed _ _ _ _ _ Hrun) as Hdone.
  pose proof (completed_page _ _ _ _ _ Hdone) as Hpage.
  destruct Hdone as (_ & Hout & _).
  split; [exact Hpage|]. split; [exact Hout|].
  split; [now rewrite (nth_error_recorded_specs _ _ _ _ Hk), Hmiss|].
  split; [now rewrite (nth_error_status_lines _ _ _ _ Hk), Hmiss|].
  destruct (merge_html_files file_paths output_path titles w2)
    as [w2' o2] eqn:Hrun2.
  rewrite Hrun in Hsame. cbn in Hsame. subst o2.
  exists w2'. split; [reflexivity|].
  pose proof (merge_completed _ _ _ _ _ Hrun2) as Hdone2.
  pose proof (completed_page _ _ _ _ _ Hdone2) as Hpage2.
  destruct Hdone2 as (_ & Hout2 & _).
  split; [|split; [exact Hout2|]].
  - rewrite Hpage2, Htitles. reflexivity.
  - intros j Hne. apply position_ext.
    intros p Hj. now apply (Hothers j).
Qed.

End Documents.

(** ** The page *)

Section Page.

(** C5.  The page written by a call on [N] paths is the template with,
    in its three slots, [N] visualization blocks, [N] declarations and
    [N] render calls, in the order of the paths.  At each position [i]
    (counted from 0, numbered [i + 1] in the text) the block carries the
    effective title of that position over the empty element with id
    [vis<i+1>]; the declaration binds [spec<i+1>] to the specification
    extracted from the path of that position, unchanged; the render call
    passes the selector [#vis<i+1>] and [spec<i+1>] to [vegaEmbed] and
    hands a failure to [showError] with the element [el<i+1>]. *)
Theorem page_has_one_fragment_per_document (w w' : world)
    (file_paths : list string) (output_path : string)
    (titles : option loc) :
  merge_html_files file_paths output_path titles w = (w', Ret tt) ->
  let n := length file_paths in
  exists effective styles details blocks declarations calls,
    files w' output_path
    = Readable (html_part1 ++ styles ++
                html_part2 ++ details ++
                html_part3 ++ flatten blocks ++
                html_part4 ++ flatten declarations ++
                html_part5 ++ flatten calls ++
                html_part6) /\
    effective = effective_titles (titles_before w titles) n /\
    length effective = n /\
    length blocks = n /\
    length declarations = n /\
    length calls = n /\
    forall i path,
      nth_error file_paths i = Some path ->
      exists title,
        nth_error effective i = Some title /\
        nth_error blocks i
        = Some (nl ++
                "    <!-- 第" ++ str (i + 1) ++ "个可视化 -->" ++ nl ++
                "    <div class=" ++ dq ++ "visualization" ++ dq ++ ">" ++ nl ++
                "      <div class=" ++ dq ++ "vis-title" ++ dq ++ ">"
                  ++ title ++ "</div>" ++ nl ++
                "      <div id=" ++ dq ++ "vis" ++ str (i + 1) ++ dq
                  ++ "></div>" ++ nl ++
                "    </div>" ++ nl ++
                "    ") /\
        nth_error declarations i
        = Some ("      var spec" ++ str (i + 1) ++ " = "
                  ++ file_spec (files w path) ++ ";" ++ nl) /\
        nth_error calls i
        = Some (nl ++
                "      // 渲染第" ++ str (i + 1) ++ "个图表" ++ nl ++
                "      const el" ++ str (i + 1)
                  ++ " = document.getElementById('vis" ++ str (i + 1)
                  ++ "');" ++ nl ++
                "      vegaEmbed(" ++ dq ++ "#vis" ++ str (i + 1) ++ dq
                  ++ ", spec" ++ str (i + 1) ++ ", embedOpt)" ++ nl ++
                "        .catch(error => showError(el" ++ str (i + 1)
                  ++ ", error));" ++ nl ++
                "      ").
Proof.
  intros Hrun n.
  pose proof (merge_completed _ _ _ _ _ Hrun) as Hdone.
  pose proof (completed_page _ _ _ _ _ Hdone) as Hpage.
  set (effective := effective_titles (titles_before w titles) n) in *.
  set (specs := recorded_specs w file_paths) in *.
  assert (Hleff : length effective = n) by apply effective_titles_length.
  assert (Hlspecs : length specs = n) by apply recorded_specs_length.
  exists effective,
    (join ", " (map vega_embed_style (seq 1 (length specs)))),
    (join ", " (map vega_embed_detail (seq 1 (length specs)))),
    (map (fun item => vis_div (fst item) (snd item)) (enumerate effective)),
    (map (fun item => spec_declaration (fst item) (snd item))
         (enumerate specs)),
    (map render_call (seq 0 (length specs))).
  split.
  { rewrite Hpage. unfold build_page.
    now rewrite build_vis_divs_flatten, build_spec_declarations_flatten,
      build_render_code_flatten. }
  rewrite !length_map, !enumerate_length, length_seq.
  split; [reflexivity|].
  repeat (split; [assumption|]).
  intros i path Hi.
  assert (Hlt : i < n) by (apply nth_error_Some; now rewrite Hi).
  destruct (nth_error effective i) as [title|] eqn:Ht;
    [|apply nth_error_None in Ht; lia].
  exists title. split; [reflexivity|].
  rewrite !nth_error_map, (nth_error_enumerate _ _ _ Ht).
  subst specs.
  rewrite (nth_error_enumerate _ _ _
             (nth_error_recorded_specs w _ _ _ Hi)).
  rewrite nth_error_seq, Hlspecs.
  destruct (Nat.ltb_spec i n); [|lia]. now repeat split.
Qed.

(** C7.  Two calls with the same paths, the same contents of the
    documents at those paths, the same titles and the same output path,
    writable or not alike, end alike, and when they return they have
    written the same page and printed the same lines. *)
Theorem merge_deterministic (w1 w2 : world) (file_paths : list string)
    (output_path : string) (titles1 titles2 : option loc) :
  (forall p, In p file_paths -> files w1 p = files w2 p) ->
  write_fault w1 output_path = write_fault w2 output_path ->
  titles_before w1 titles1 = titles_before w2 titles2 ->
  let r1 := merge_html_files file_paths output_path titles1 w1 in
  let r2 := merge_html_files file_paths output_path titles2 w2 in
  snd r1 = snd r2 /\
  (snd r1 = Ret tt ->
   files (fst r1) output_path = files (fst r2) output_path /\
   (exists page, files (fst r1) output_path = Readable page) /\
   exists lines,
     stdout (fst r1) = (stdout w1 ++ lines)%list /\
     stdout (fst r2) = (stdout w2 ++ lines)%list).
Proof.
  intros Hfiles Hwr Htitles r1 r2.
  assert (Hsnd : snd r1 = snd r2).
  { subst r1 r2. rewrite !merge_outcome. unfold run_outcome.
    now rewrite (first_failure_ext w1 w2 file_paths Hfiles), Hwr. }
  split; [exact Hsnd|]. intros Hret.
  assert (H1 : r1 = (fst r1, Ret tt)) by (rewrite <- Hret; now destruct r1).
  assert (H2 : r2 = (fst r2, Ret tt))
    by (rewrite <- Hret, Hsnd; now destruct r2).
  apply merge_completed in H1, H2.
  pose proof (completed_page _ _ _ _ _ H1) as Hp1.
  pose proof (completed_page _ _ _ _ _ H2) as Hp2.
  destruct H1 as (_ & Hout1 & _). destruct H2 as (_ & Hout2 & _).
  rewrite Hp1, Hp2, Hout1, Hout2.
  rewrite Htitles, (recorded_specs_ext w1 w2 file_paths Hfiles),
    (status_lines_ext w1 w2 file_paths Hfiles).
  repeat split; eauto.
Qed.



(** The style selectors of source lines 79 and 80 are numbered from 2 to
    [N + 1]: [range(1, len(specs) + 1)] is combined with [i + 1]. *)
Example style_selectors_of_two :
  join ", " (map vega_embed_style (seq 1 2))
  = "#vis2.vega-embed, #vis3.vega-embed".
Proof. reflexivity. Qed.

(** C9.  With no paths and a writable output path the call returns,
    having written the template with no block, no declaration and no
    render call, and printed the one summary line, which reports 0. *)
Theorem merge_of_no_documents (w : world) (output_path : string)
    (titles : option loc) :
  write_fault w output_path = None ->
  exists w',
    merge_html_files [] output_path titles w = (w', Ret tt) /\
    files w' output_path
    = Readable (merged_html_text EmptyString EmptyString EmptyString
                                 EmptyString EmptyString) /\
    stdout w'
    = (stdout w
         ++ [(nl ++ "✅ 成功合并 0 个HTML文件到: " ++ output_path)%string])%list.
Proof.
  intros Hwr.
  destruct (merge_returns [] output_path titles w eq_refl Hwr)
    as (w' & Hrun & Hdone).
  exists w'. split; [exact Hrun|].
  pose proof (completed_page _ _ _ _ _ Hdone) as Hpage.
  destruct Hdone as (_ & Hout & _).
  split; [exact Hpage | exact Hout].
Qed.

End Page.

(** ** The round trip of two documents *)

Section RoundTrip.

(** C8.  Two documents whose assignment (the first in each text) is
    [var spec = {"a": 1};] and [var spec = {"b": [1,2,3]};], merged with
    the default titles: the page written is the template with, in its
    declaration slot, the declarations of [spec1] and [spec2] with these
    two literals, in this order, and after them, in its render slot, the
    render calls of [#vis1] with [spec1] and of [#vis2] with [spec2]; the
    two blocks before them carry the first two default titles. *)
Theorem two_documents_round_trip (w : world) (path1 path2 : string)
    (output_path : string) (pre1 post1 pre2 post2 : string) :
  files w path1
  = Readable (pre1 ++ "var spec = {" ++ dq ++ "a" ++ dq ++ ": 1};" ++ post1) ->
  files w path2
  = Readable (pre2 ++ "var spec = {" ++ dq ++ "b" ++ dq ++ ": [1,2,3]};"
                   ++ post2) ->
  ~ occurs_in "var spec = {" (pre1 ++ "var spec = ") ->
  ~ occurs_in "var spec = {" (pre2 ++ "var spec = ") ->
  write_fault w output_path = None ->
  exists w',
    merge_html_files [path1; path2] output_path None w = (w', Ret tt) /\
    files w' output_path
    = Readable
        (html_part1 ++
         "#vis2.vega-embed, #vis3.vega-embed" ++
         html_part2 ++
         ("#vis2.vega-embed details," ++ nl ++
          "    #vis2.vega-embed details summary, #vis3.vega-embed details," ++ nl ++
          "    #vis3.vega-embed details summary") ++
         html_part3 ++
         (nl ++
           "    <!-- 第1个可视化 -->" ++ nl ++
           "    <div class=" ++ dq ++ "visualization" ++ dq ++ ">" ++ nl ++
           "      <div class=" ++ dq ++ "vis-title" ++ dq
             ++ ">📊 Expenditure and Contribution Analysis</div>" ++ nl ++
           "      <div id=" ++ dq ++ "vis1" ++ dq ++ "></div>" ++ nl ++
           "    </div>" ++ nl ++
           "    ") ++
         (nl ++
           "    <!-- 第2个可视化 -->" ++ nl ++
           "    <div class=" ++ dq ++ "visualization" ++ dq ++ ">" ++ nl ++
           "      <div class=" ++ dq ++ "vis-title" ++ dq
             ++ ">🗺️ Geographic Distribution by County</div>" ++ nl ++
           "      <div id=" ++ dq ++ "vis2" ++ dq ++ "></div>" ++ nl ++
           "    </div>" ++ nl ++
           "    ") ++
         html_part4 ++
         ("      var spec1 = {" ++ dq ++ "a" ++ dq ++ ": 1};" ++ nl) ++
         ("      var spec2 = {" ++ dq ++ "b" ++ dq ++ ": [1,2,3]};" ++ nl) ++
         html_part5 ++
         (nl ++
           "      // 渲染第1个图表" ++ nl ++
           "      const el1 = document.getElementById('vis1');" ++ nl ++
           "      vegaEmbed(" ++ dq ++ "#vis1" ++ dq ++ ", spec1, embedOpt)" ++ nl ++
           "        .catch(error => showError(el1, error));" ++ nl ++
           "      ") ++
         (nl ++
           "      // 渲染第2个图表" ++ nl ++
           "      const el2 = document.getElementById('vis2');" ++ nl ++
           "      vegaEmbed(" ++ dq ++ "#vis2" ++ dq ++ ", spec2, embedOpt)" ++ nl ++
           "        .catch(error => showError(el2, error));" ++ nl ++
           "      ") ++
         html_part6).
Proof.
  intros Hf1 Hf2 Hpre1 Hpre2 Hwr.
  assert (Hall : forallb (item_recoverable w) (enumerate [path1; path2])
                 = true).
  { cbn. unfold item_recoverable. cbn [snd]. now rewrite Hf1, Hf2. }
  destruct (merge_returns [path1; path2] output_path None w Hall Hwr)
    as (w' & Hrun & Hdone).
  exists w'. split; [exact Hrun|].
  rewrite (completed_page _ _ _ _ _ Hdone).
  unfold recorded_specs. cbn [map]. rewrite Hf1, Hf2. cbn [file_spec].
  change (pre1 ++ "var spec = {" ++ dq ++ "a" ++ dq ++ ": 1};" ++ post1)
    with (pre1 ++ "var spec = {" ++ (dq ++ "a" ++ dq ++ ": 1") ++ "};" ++ post1).
  change (pre2 ++ "var spec = {" ++ dq ++ "b" ++ dq ++ ": [1,2,3]};" ++ post2)
    with (pre2 ++ "var spec = {" ++ (dq ++ "b" ++ dq ++ ": [1,2,3]")
               ++ "};" ++ post2).
  rewrite !extract_spec_at;
    try assumption; try (apply occursb_false; reflexivity).
  reflexivity.
Qed.

End RoundTrip.

(** ** The statements on the sample world *)

Section Samples.

Lemma pattern_occurs_open (s : string) :
  pattern_occurs s -> occurs_in "var spec = {" s.
Proof.
  intros (pre & body & post & ->).
  now exists pre, (body ++ "};" ++ post).
Qed.

Lemma sample_plain_no_pattern : ~ pattern_occurs sample_plain.
Proof.
  intros H. apply pattern_occurs_open in H. revert H.
  apply occursb_false. reflexivity.
Defined.

Example extract_spec_sample_a :
  extract_spec sample_a = "{" ++ dq ++ "a" ++ dq ++ ": 1}".
Proof. reflexivity. Qed.

Example extract_spec_sample_plain : extract_spec sample_plain = "{}".
Proof. reflexivity. Qed.

Example extract_spec_takes_leftmost :
  extract_spec "var spec = {1}; var spec = {2};" = "{1}".
Proof. reflexivity. Qed.

Example sample_run_outcome :
  snd sample_run = Ret tt /\
  stdout (fst sample_run)
  = [ "✓ 已读取文件 1: a.html";
      "✗ 警告: 找不到文件 missing.html";
      "✓ 已读取文件 3: b.html";
      nl ++ "✅ 成功合并 3 个HTML文件到: index.html" ] /\
  heap (fst sample_run) 0
  = [ "Spending"; "📊 Visualization 2"; "📊 Visualization 3" ].
Proof. repeat split. Qed.

Lemma extract_spec_returns_first_capture_witness :
  pattern_occurs sample_a /\
  exists pre body post,
    sample_a = pre ++ "var spec = " ++ ("{" ++ body ++ "}") ++ ";" ++ post /\
    ~ occurs_in "var spec = {" (pre ++ "var spec = ") /\
    ~ occurs_in "};" (body ++ "}") /\
    extract_spec sample_a = "{" ++ body ++ "}".
Proof.
  assert (H : pattern_occurs sample_a).
  { exists ("<script>" ++ nl ++ "  "), (dq ++ "a" ++ dq ++ ": 1"),
      (nl ++ "</script>").
    reflexivity. }
  split; [exact H|].
  exact (extract_spec_returns_first_capture sample_a H).
Defined.

Lemma extract_spec_truncates_at_first_close_witness :
  ~ occurs_in "var spec = {" ("<script>" ++ "var spec = ") /\
  ~ occurs_in "};" (sample_head ++ "}") /\
  extract_spec
    ("<script>" ++ "var spec = "
       ++ ("{" ++ sample_head ++ "};" ++ sample_rest ++ "}")
       ++ ";" ++ "</script>")
  = "{" ++ sample_head ++ "}".
Proof.
  assert (H1 : ~ occurs_in "var spec = {" ("<script>" ++ "var spec = "))
    by (apply occursb_false; reflexivity).
  assert (H2 : ~ occurs_in "};" (sample_head ++ "}"))
    by (apply occursb_false; reflexivity).
  split; [exact H1|]. split; [exact H2|].
  exact (proj1 (extract_spec_truncates_at_first_close
                  "<script>" sample_head sample_rest "</script>" H1 H2)).
Defined.

Lemma missing_pattern_yields_placeholder_witness :
  ~ pattern_occurs sample_plain /\
  extract_spec sample_plain = "{}".
Proof.
  split; [exact sample_plain_no_pattern|].
  exact (proj1 missing_pattern_yields_placeholder sample_plain
               sample_plain_no_pattern).
Defined.

(** C3 as it is worded fails: the title synthesized for position 1 of a
    call with an empty title list is not the bare word and number. *)
Lemma padding_title_has_emoji_counterexample :
  snd (merge_html_files ["a.html"] "index.html" (Some 1) sample_world)
  = Ret tt /\
  heap sample_world 1 = [] /\
  nth_error
    (firstn 1
       (heap (fst (merge_html_files ["a.html"] "index.html" (Some 1)
                     sample_world)) 1)) 0
  = Some "📊 Visualization 1" /\
  nth_error
    (firstn 1
       (heap (fst (merge_html_files ["a.html"] "index.html" (Some 1)
                     sample_world)) 1)) 0
  <> Some "Visualization 1".
Proof.
  repeat split. vm_compute. discriminate.
Qed.

Lemma effective_titles_of_run_witness :
  sample_run = (fst sample_run, Ret tt) /\
  length (firstn (length sample_paths) (heap (fst sample_run) 0))
  = length sample_paths.
Proof.
  assert (H : sample_run = (fst sample_run, Ret tt)) by reflexivity.
  split; [exact H|].
  exact (proj1 (proj2 (effective_titles_of_run
                         sample_world (fst sample_run) sample_paths
                         "index.html" 0 H))).
Defined.

(** C4 as it is worded fails: a document that exists but may not be read
    aborts the call; nothing is recorded or printed for it, the document
    after it is not processed and no page is written. *)
Lemma unreadable_document_aborts_counterexample :
  files sample_world "locked.html" = Fails PermissionError /\
  snd (merge_html_files ["locked.html"; "a.html"] "index.html" None
         sample_world)
  = Raise PermissionError /\
  stdout (fst (merge_html_files ["locked.html"; "a.html"] "index.html" None
                 sample_world))
  = [] /\
  files (fst (merge_html_files ["locked.html"; "a.html"] "index.html" None
                sample_world)) "index.html"
  = Fails FileNotFoundError.
Proof. repeat split. Qed.

Lemma missing_document_is_recoverable_witness :
  nth_error sample_paths 1 = Some "missing.html" /\
  files sample_world "missing.html" = Fails FileNotFoundError /\
  files (with_text sample_world "missing.html" sample_plain) "missing.html"
  = Readable sample_plain /\
  snd sample_run
  = snd (merge_html_files sample_paths "index.html" (Some 0)
           (with_text sample_world "missing.html" sample_plain)).
Proof.
  split; [reflexivity|]. split; [reflexivity|]. split; [reflexivity|].
  assert (Hothers : forall j p,
             j <> 1 -> nth_error sample_paths j = Some p ->
             files (with_text sample_world "missing.html" sample_plain) p
             = files sample_world p).
  { intros [|[|[|j]]] p Hne Hj; cbn in Hj;
      try (injection Hj as <-; reflexivity).
    - now elim Hne.
    - destruct j; discriminate. }
  exact (proj1 (missing_document_is_recoverable
                  sample_world
                  (with_text sample_world "missing.html" sample_plain)
                  sample_paths "index.html" (Some 0)
                  1 "missing.html" sample_plain
                  eq_refl eq_refl eq_refl Hothers eq_refl eq_refl)).
Defined.

Lemma page_has_one_fragment_per_document_witness :
  sample_run = (fst sample_run, Ret tt) /\
  exists blocks declarations calls : list string,
    length blocks = 3 /\ length declarations = 3 /\ length calls = 3.
Proof.
  assert (H : sample_run = (fst sample_run, Ret tt)) by reflexivity.
  split; [exact H|].
  destruct (page_has_one_fragment_per_document
              sample_world (fst sample_run) sample_paths "index.html"
              (Some 0) H)
    as (effective & styles & details & blocks & declarations & calls
        & _ & _ & _ & Hb & Hd & Hc & _).
  now exists blocks, declarations, calls.
Defined.

Lemma merge_deterministic_witness :
  (forall p, In p sample_paths ->
             files sample_world p
             = files (with_text sample_world "other.html" sample_plain) p) /\
  snd sample_run
  = snd (merge_html_files sample_paths "index.html" (Some 0)
           (with_text sample_world "other.html" sample_plain)).
Proof.
  assert (H : forall p, In p sample_paths ->
                files sample_world p
                = files (with_text sample_world "other.html" sample_plain) p).
  { intros p [<- | [<- | [<- | []]]]; reflexivity. }
  split; [exact H|].
  exact (proj1 (merge_deterministic
                  sample_world
                  (with_text sample_world "other.html" sample_plain)
                  sample_paths "index.html" (Some 0) (Some 0)
                  H eq_refl eq_refl)).
Defined.

Lemma two_documents_round_trip_witness :
  files sample_world "a.html"
  = Readable (("<script>" ++ nl ++ "  ")
                ++ "var spec = {" ++ dq ++ "a" ++ dq ++ ": 1};"
                ++ (nl ++ "</script>")) /\
  files sample_world "b.html"
  = Readable ("<script>"
                ++ "var spec = {" ++ dq ++ "b" ++ dq ++ ": [1,2,3]};"
                ++ "</script>") /\
  exists w',
    merge_html_files ["a.html"; "b.html"] "index.html" None sample_world
    = (w', Ret tt).
Proof.
  split; [reflexivity|]. split; [reflexivity|].
  assert (H1 : ~ occurs_in "var spec = {"
                 (("<script>" ++ nl ++ "  ") ++ "var spec = "))
    by (apply occursb_false; reflexivity).
  assert (H2 : ~ occurs_in "var spec = {" ("<script>" ++ "var spec = "))
    by (apply occursb_false; reflexivity).
  destruct (two_documents_round_trip
              sample_world "a.html" "b.html" "index.html"
              ("<script>" ++ nl ++ "  ") (nl ++ "</script>")
              "<script>" "</script>"
              eq_refl eq_refl H1 H2 eq_refl)
    as (w' & Hrun & _).
  now exists w'.
Defined.

Lemma merge_of_no_documents_witness :
  write_fault sample_world "index.html" = None /\
  exists w',
    merge_html_files [] "index.html" None sample_world = (w', Ret tt) /\
    stdout w' = [nl ++ "✅ 成功合并 0 个HTML文件到: index.html"].
Proof.
  split; [reflexivity|].
  destruct (merge_of_no_documents sample_world "index.html" None eq_refl)
    as (w' & Hrun & _ & Hout).
  exists w'. split; [exact Hrun | exact Hout].
Defined.

Lemma titles_padded_in_place_witness :
  length (heap sample_world 0) < length sample_paths /\
  heap (fst sample_run) 0
  = [ "Spending"; "📊 Visualization 2"; "📊 Visualization 3" ].
Proof.
  assert (H : length (heap sample_world 0) < length sample_paths)
    by (cbn; lia).
  split; [exact H|].
  exact (proj1 (titles_padded_in_place
                  sample_world sample_paths "index.html" 0 H)).
Defined.

End Samples.


(** * Further properties of the code *)

(** ** More on [extract_spec] *)

Section ExtractMore.

Lemma extract_spec_braced (s : string) :
  exists body,
    extract_spec s = "{" ++ body ++ "}" /\
    ~ occurs_in "};" (body ++ "}").
Proof.
  destruct (Re.search_from spec_pattern s 0) as [r|] eqn:E.
  - destruct (search_sound _ _ _ E) as (pre & body & post & -> & Hpre & Hbody).
    exists body. split; [now apply extract_spec_at | exact Hbody].
  - exists EmptyString. split.
    + unfold extract_spec, Re.search. now rewrite E.
    + apply occurs_in_short. simpl. lia.
Qed.

(** X1.  Whatever the text, the result of [extract_spec] starts with an
    opening brace, ends with a closing brace and has no [};] inside: a
    closing brace of the result is never followed by a semicolon. *)
Theorem extract_spec_is_braced (s : string) :
  exists body,
    extract_spec s = "{" ++ body ++ "}" /\
    ~ occurs_in "};" (extract_spec s).
Proof.
  destruct (extract_spec_braced s) as (body & Hres & Hno).
  exists body. split; [exact Hres|].
  rewrite Hres. cbn [String.append]. rewrite occurs_in_cons.
  intros [(r & Hr) | Hocc]; [|tauto].
  cbn [String.append] in Hr. apply String_inj in Hr as [Hr _]. discriminate.
Qed.

(** X2.  Round trip: the result of [extract_spec], written back as the
    right-hand side of an assignment [var spec = ...;] with any text after
    it, is extracted again unchanged. *)
Theorem extract_spec_round_trip (s after : string) :
  extract_spec ("var spec = " ++ extract_spec s ++ ";" ++ after)
  = extract_spec s.
Proof.
  destruct (extract_spec_braced s) as (body & Hres & Hno).
  rewrite Hres.
  change ("var spec = " ++ ("{" ++ body ++ "}") ++ ";" ++ after)
    with (EmptyString ++ "var spec = " ++ ("{" ++ body ++ "}") ++ ";" ++ after).
  rewrite capture_regroup. apply extract_spec_at; [|exact Hno].
  apply occurs_in_short. simpl. lia.
Qed.

(** X3.  Once the pattern occurs in a text, nothing appended to the text
    changes the result: the first assignment wins over any later one. *)
Theorem extract_spec_first_assignment_wins (s after : string) :
  pattern_occurs s -> extract_spec (s ++ after) = extract_spec s.
Proof.
  intros Hocc.
  destruct (Re.search_from spec_pattern s 0) as [r|] eqn:E.
  - destruct (search_sound _ _ _ E) as (pre & body & post & -> & Hpre & Hbody).
    replace ((pre ++ "var spec = {" ++ body ++ "};" ++ post) ++ after)
      with (pre ++ "var spec = {" ++ body ++ "};" ++ (post ++ after)).
    + now rewrite !extract_spec_at.
    + repeat (cbn [String.append]; rewrite ?append_assoc). reflexivity.
  - now apply (search_some s 0) in Hocc.
Qed.

(** X4.  A text without the opening [var spec = {], or without any [};],
    gives the placeholder: an assignment that is never closed is not
    extracted in part. *)
Theorem extract_spec_needs_both_ends (s : string) :
  ~ occurs_in "var spec = {" s \/ ~ occurs_in "};" s ->
  extract_spec s = "{}".
Proof.
  intros H. apply extract_spec_no_match.
  intros (pre & body & post & ->). destruct H as [H | H]; apply H.
  - now exists pre, (body ++ "};" ++ post).
  - exists (pre ++ "var spec = {" ++ body), post.
    repeat (cbn [String.append]; rewrite ?append_assoc). reflexivity.
Qed.

End ExtractMore.

(** ** Numbering *)

Section Numbering.

Lemma to_uint_nonnil (n : nat) : Nat.to_uint n <> Decimal.Nil.
Proof.
  rewrite <- (DecimalNat.Unsigned.of_to n) at 1.
  rewrite DecimalNat.Unsigned.to_of. apply DecimalFacts.unorm_nonnil.
Qed.

Lemma str_inj (i j : nat) : str i = str j -> i = j.
Proof.
  unfold str. intros H.
  apply (f_equal DecimalString.NilZero.uint_of_string) in H.
  rewrite !DecimalString.NilZero.usu in H by apply to_uint_nonnil.
  injection H as H. now apply DecimalNat.Unsigned.to_uint_inj.
Qed.

Lemma append_inv_head (a b c : string) : a ++ b = a ++ c -> b = c.
Proof.
  induction a as [|x a IH]; cbn [String.append]; intros H; [exact H|].
  apply String_inj in H as [_ H]. now apply IH.
Qed.

Lemma all_digits_of_uint (d : Decimal.uint) :
  all_digits (DecimalString.NilEmpty.string_of_uint d) = true.
Proof. induction d; cbn; auto. Qed.

Lemma str_digits (n : nat) : all_digits (str n) = true.
Proof.
  unfold str, DecimalString.NilZero.string_of_uint.
  destruct (Nat.to_uint n) eqn:E; try reflexivity;
    rewrite <- E; apply all_digits_of_uint.
Qed.

(** A run of digits in front of a text that does not go on with a digit
    is determined by the whole text. *)
Lemma digits_prefix (s1 s2 r1 r2 : string) :
  all_digits s1 = true -> all_digits s2 = true ->
  starts_nondigit r1 = true -> starts_nondigit r2 = true ->
  s1 ++ r1 = s2 ++ r2 -> s1 = s2.
Proof.
  revert s2; induction s1 as [|c s1 IH]; intros [|d s2] H1 H2 Hr1 Hr2 Heq;
    cbn [String.append all_digits] in *.
  - reflexivity.
  - subst r1. cbn in Hr1. apply andb_true_iff in H2 as [H2 _].
    now rewrite H2 in Hr1.
  - subst r2. cbn in Hr2. apply andb_true_iff in H1 as [H1 _].
    now rewrite H1 in Hr2.
  - apply String_inj in Heq as [-> Heq].
    apply andb_true_iff in H1 as [_ H1]. apply andb_true_iff in H2 as [_ H2].
    now rewrite (IH s2 H1 H2 Hr1 Hr2 Heq).
Qed.

Lemma numbered_texts_differ (i j : nat) (r1 r2 : string) :
  i <> j ->
  starts_nondigit r1 = true -> starts_nondigit r2 = true ->
  str (i + 1) ++ r1 <> str (j + 1) ++ r2.
Proof.
  intros Hne Hr1 Hr2 Heq.
  apply digits_prefix in Heq; try assumption; try apply str_digits.
  apply str_inj in Heq. lia.
Qed.

(** X5.  The fragments generated for two different positions always
    differ, whatever titles and specifications they carry: the blocks of
    source lines 55 to 61, the declarations of line 66 and the render
    calls of lines 71 to 76 each write the position number first, and
    decimal numbers of different positions cannot be confused. *)
Theorem fragments_of_distinct_positions_differ (i j : nat)
    (title1 title2 spec1 spec2 : string) :
  i <> j ->
  vis_div i title1 <> vis_div j title2 /\
  spec_declaration i spec1 <> spec_declaration j spec2 /\
  render_call i <> render_call j.
Proof.
  intros Hne. unfold vis_div, spec_declaration, render_call.
  repeat split; intros Heq; repeat apply append_inv_head in Heq;
    revert Heq; now apply numbered_texts_differ.
Qed.

Lemma map_seq_shift {A} (f : nat -> A) (n : nat) :
  map (fun i => f (i + 1)) (seq 1 n) = map f (seq 2 n).
Proof.
  rewrite <- (seq_shift n 1), map_map.
  apply map_ext. intros i. now rewrite Nat.add_1_r.
Qed.

(** X6.  The selectors of the two generated style rules are numbered from
    2 to [N + 1], one past the element ids of the blocks: in the page of a
    completed call on [N] paths both selector lists run over the numbers
    [2 .. N + 1], while the block of each position [i] (from 0) holds the
    element with id [vis<i+1>], so the ids run over [1 .. N]. *)
Theorem style_selectors_are_shifted (w w' : world)
    (file_paths : list string) (output_path : string)
    (titles : option loc) :
  merge_html_files file_paths output_path titles w = (w', Ret tt) ->
  let n := length file_paths in
  exists blocks rest,
    files w' output_path
    = Readable
        (html_part1 ++
         join ", "
           (map (fun k => "#vis" ++ str k ++ ".vega-embed") (seq 2 n)) ++
         html_part2 ++
         join ", "
           (map (fun k => "#vis" ++ str k ++ ".vega-embed details,"
                            ++ nl ++
                          "    #vis" ++ str k
                            ++ ".vega-embed details summary")
                (seq 2 n)) ++
         html_part3 ++
         flatten blocks ++
         rest) /\
    length blocks = n /\
    forall i,
      i < n ->
      exists title,
        nth_error blocks i
        = Some (nl ++
            "    <!-- 第" ++ str (i + 1) ++ "个可视化 -->" ++ nl ++
            "    <div class=" ++ dq ++ "visualization" ++ dq ++ ">" ++ nl ++
            "      <div class=" ++ dq ++ "vis-title" ++ dq ++ ">"
              ++ title ++ "</div>" ++ nl ++
            "      <div id=" ++ dq ++ "vis" ++ str (i + 1) ++ dq
              ++ "></div>" ++ nl ++
            "    </div>" ++ nl ++
            "    ").
Proof.
  intros Hrun n.
  pose proof (merge_completed _ _ _ _ _ Hrun) as Hdone.
  pose proof (completed_page _ _ _ _ _ Hdone) as Hpage.
  set (effective := effective_titles (titles_before w titles) n) in *.
  exists (map (fun item => vis_div (fst item) (snd item))
              (enumerate effective)).
  eexists. split; [|split].
  - rewrite Hpage. unfold build_page, merged_html_text.
    rewrite recorded_specs_length. fold n.
    unfold vega_embed_style, vega_embed_detail.
    rewrite (map_seq_shift (fun k => "#vis" ++ str k ++ ".vega-embed") n).
    rewrite (map_seq_shift
               (fun k => "#vis" ++ str k ++ ".vega-embed details," ++ nl ++
                         "    #vis" ++ str k ++ ".vega-embed details summary")
               n).
    rewrite build_vis_divs_flatten. reflexivity.
  - rewrite length_map, enumerate_length. apply effective_titles_length.
  - intros i Hi.
    destruct (nth_error effective i) as [title|] eqn:Ht.
    + exists title.
      now rewrite nth_error_map, (nth_error_enumerate _ _ _ Ht).
    + apply nth_error_None in Ht.
      unfold effective in Ht. rewrite effective_titles_length in Ht. lia.
Qed.

End Numbering.

(** ** Calls that fail, and what a call leaves alone *)

Section Failures.

Lemma combine_seq_app {A} (l1 l2 : list A) (k : nat) :
  combine (seq k (length (l1 ++ l2))) (l1 ++ l2)
  = (combine (seq k (length l1)) l1
       ++ combine (seq (k + length l1) (length l2)) l2)%list.
Proof.
  revert k; induction l1 as [|x l1 IH]; intros k; cbn [length List.app].
  - now rewrite Nat.add_0_r.
  - cbn [seq combine]. rewrite IH. cbn [List.app].
    now replace (S k + length l1) with (k + S (length l1)) by lia.
Qed.

Lemma enumerate_app {A} (l1 l2 : list A) :
  enumerate (l1 ++ l2)
  = (enumerate l1 ++ combine (seq (length l1) (length l2)) l2)%list.
Proof. unfold enumerate. now rewrite combine_seq_app. Qed.

Lemma recoverable_items (w : world) (good : list string) :
  (forall q, In q good -> recoverable (files w q) = true) ->
  forallb (item_recoverable w) (enumerate good) = true.
Proof.
  intros H. apply forallb_forall. intros item Hitem.
  apply H. now apply in_enumerate.
Qed.

Lemma merge_some_write_fails_world (file_paths : list string)
    (output_path : string) (a : loc) (w : world) (e : pyexn) :
  forallb (item_recoverable w) (enumerate file_paths) = true ->
  write_fault w output_path = Some e ->
  exists w',
    merge_html_files file_paths output_path (Some a) w = (w', Raise e) /\
    files w' = files w /\
    stdout w' = (stdout w ++ status_lines w file_paths)%list.
Proof.
  intros Hall Hwr. rewrite merge_unfold.
  destruct (pad_titles_run (S (length file_paths)) a file_paths w)
    as (w1 & -> & Hf & Hwf & Hout & _); [lia|].
  destruct (same_files _ _ Hf) as (Hrec & Hsta & _).
  unfold read_specs. rewrite read_loop_ok by (now rewrite Hrec).
  cbv zeta. unfold write_file.
  cbn [set_stdout files write_fault heap next_loc stdout].
  rewrite Hwf, Hwr. eexists. split; [reflexivity|].
  split; cbn; [exact Hf|]. unfold status_lines. now rewrite Hout, Hsta.
Qed.

Lemma merge_some_first_failure (w : world) (output_path : string) (a : loc)
    (good : list string) (p : string) (rest : list string) (e : pyexn) :
  (forall q, In q good -> recoverable (files w q) = true) ->
  files w p = Fails e ->
  is_FileNotFoundError e = false ->
  exists w',
    merge_html_files (good ++ p :: rest) output_path (Some a) w
    = (w', Raise e) /\
    files w' = files w /\
    stdout w' = (stdout w ++ status_lines w good)%list.
Proof.
  intros Hgood Hp He.
  assert (Hsplit : enumerate (good ++ p :: rest)
                   = (enumerate good
                        ++ (length good, p)
                             :: combine (seq (S (length good)) (length rest))
                                        rest)%list).
  { rewrite enumerate_app. reflexivity. }
  exact (merge_some_read_fails (good ++ p :: rest) output_path a w
           (enumerate good) (length good, p)
           (combine (seq (S (length good)) (length rest)) rest) e
           Hsplit (recoverable_items w good Hgood) Hp He).
Qed.

Lemma merge_some_failed (file_paths : list string) (output_path : string)
    (a : loc) (w : world) :
  let r := merge_html_files file_paths output_path (Some a) w in
  snd r <> Ret tt ->
  files (fst r) = files w /\
  exists k, stdout (fst r)
            = (stdout w ++ firstn k (status_lines w file_paths))%list.
Proof.
  cbv zeta. intros Hfail.
  destruct (first_unrecoverable w (enumerate file_paths))
    as [Hall | (good & item & rest & Hsplit & Hgood & Hitem)].
  - destruct (write_fault w output_path) as [e|] eqn:Hwr.
    + destruct (merge_some_write_fails_world file_paths output_path a w e
                  Hall Hwr) as (w' & Hrun & Hf & Hout).
      rewrite Hrun. cbn [fst]. split; [exact Hf|].
      exists (length (status_lines w file_paths)).
      now rewrite firstn_all.
    + destruct (merge_some_ok file_paths output_path a w Hall Hwr)
        as (w' & Hrun & _).
      rewrite Hrun in Hfail. now elim Hfail.
  - destruct (unrecoverable_fails w item Hitem) as (e & Hf & He).
    destruct (merge_some_read_fails file_paths output_path a w
                good item rest e Hsplit Hgood Hf He)
      as (w' & Hrun & Hfiles & Hout).
    rewrite Hrun. cbn [fst]. split; [exact Hfiles|].
    exists (length (map (item_status w) good)).
    rewrite Hout. unfold status_lines. rewrite Hsplit, map_app.
    rewrite <- (Nat.add_0_r (length (map (item_status w) good))).
    rewrite firstn_app_2. cbn [firstn]. now rewrite app_nil_r.
Qed.

(** X8.  A call that returns has changed no file but the one at the
    output path, no list object but the titles list it worked on (the
    caller's, or the new one when [titles] is [None]), and has not changed
    what may be written. *)
Theorem completed_call_frame (w w' : world) (file_paths : list string)
    (output_path : string) (titles : option loc) :
  merge_html_files file_paths output_path titles w = (w', Ret tt) ->
  (forall p, p <> output_path -> files w' p = files w p) /\
  (forall b, b <> titles_loc w titles -> heap w' b = heap w b) /\
  write_fault w' = write_fault w.
Proof.
  intros Hrun.
  destruct (merge_completed _ _ _ _ _ Hrun) as (Hf & _ & _ & Hb & Hwf).
  repeat split; [|exact Hb|exact Hwf].
  intros p Hne. rewrite Hf. apply String.eqb_neq in Hne. now rewrite Hne.
Qed.

(** X9.  Whatever the outcome of a call, the caller's list ends with the
    larger of its own length and the number of paths; a list that has
    enough titles is left exactly as it was, the titles in excess
    included. *)
Theorem titles_list_after_call (w : world) (file_paths : list string)
    (output_path : string) (a : loc) :
  let w' := fst (merge_html_files file_paths output_path (Some a) w) in
  length (heap w' a) = Nat.max (length (heap w a)) (length file_paths) /\
  (length file_paths <= length (heap w a) -> heap w' a = heap w a).
Proof.
  intros w'.
  destruct (merge_some_any file_paths output_path a w)
    as (w1 & (_ & _ & _ & _ & Ha & _) & Hheap & _).
  fold w' in Hheap. rewrite Hheap, Ha. split.
  - rewrite length_app, padding_length. lia.
  - intros Hle. now rewrite padding_nil, app_nil_r.
Qed.

(** X10.  The first document, in the order of the paths, whose read fails
    with something other than [FileNotFoundError] decides how the call
    ends: the call raises that exception, whatever the documents after it
    and the output path are; the lines of the documents before it have
    been printed, and no file has been written. *)
Theorem first_unreadable_document_decides (w : world)
    (output_path : string) (titles : option loc)
    (good : list string) (p : string) (rest : list string) (e : pyexn) :
  (forall q, In q good -> recoverable (files w q) = true) ->
  files w p = Fails e ->
  is_FileNotFoundError e = false ->
  exists w',
    merge_html_files (good ++ p :: rest) output_path titles w
    = (w', Raise e) /\
    files w' = files w /\
    stdout w' = (stdout w ++ status_lines w good)%list.
Proof.
  intros Hgood Hp He.
  destruct titles as [a|]; [now apply merge_some_first_failure|].
  rewrite merge_none.
  exact (merge_some_first_failure
           (set_heap w (fun a => if Nat.eqb a (next_loc w)
                                 then default_titles else heap w a)
                     (S (next_loc w)))
           output_path (next_loc w) good p rest e Hgood Hp He).
Qed.

(** X12.  When every document is readable or missing and the output path
    cannot be written, the call raises the exception of the write after
    having read every document: all the status lines are printed, the
    summary is not, and no file has changed. *)
Theorem write_fault_after_all_reads (w : world) (file_paths : list string)
    (output_path : string) (titles : option loc) (e : pyexn) :
  (forall q, In q file_paths -> recoverable (files w q) = true) ->
  write_fault w output_path = Some e ->
  exists w',
    merge_html_files file_paths output_path titles w = (w', Raise e) /\
    files w' = files w /\
    stdout w' = (stdout w ++ status_lines w file_paths)%list.
Proof.
  intros Hall Hwr.
  destruct titles as [a|].
  - exact (merge_some_write_fails_world file_paths output_path a w e
             (recoverable_items w file_paths Hall) Hwr).
  - rewrite merge_none.
    exact (merge_some_write_fails_world file_paths output_path (next_loc w)
             (set_heap w (fun a => if Nat.eqb a (next_loc w)
                                   then default_titles else heap w a)
                       (S (next_loc w)))
             e (recoverable_items w file_paths Hall) Hwr).
Qed.

End Failures.

(** ** The entry point *)

Section EntryPoint.

Variable describe : world -> pyexn -> string.

Lemma main_unfold (w : world) :
  main describe w
  = match merge_html_files main_files main_output (Some (next_loc w))
            (main_start w) with
    | (w1, Ret _) =>
        (set_stdout w1
           (stdout w1
              ++ ["🎉 合并完成！请在浏览器中打开 index.html 查看结果。";
                  "📊 共合并了 3 个可视化图表"])%list,
         Ret tt)
    | (w1, Raise e) =>
        (set_stdout w1
           (stdout w1 ++ [("❌ 发生错误: " ++ describe w1 e)%string])%list,
         Ret tt)
    | (w1, OutOfFuel) => (w1, OutOfFuel)
    end.
Proof.
  unfold main, try_except_as. unfold bind at 1, list_new at 1.
  fold (main_start w). unfold bind at 1.
  destruct (merge_html_files main_files main_output (Some (next_loc w))
              (main_start w)) as [w1 [[]|e|]]; try reflexivity.
  cbn. unfold set_stdout. cbn. now rewrite <- app_assoc.
Qed.

(** X14.  When the three documents are readable or missing and
    [index.html] can be written, the entry point writes the page built
    with its own three titles, none padded or replaced by a default, and
    prints the status lines, the summary and its two closing lines; its
    titles list still holds the three titles. *)
Theorem main_writes_dashboard (w : world) :
  (forall q, In q main_files -> recoverable (files w q) = true) ->
  write_fault w "index.html" = None ->
  let r := main describe w in
  files (fst r) "index.html"
  = Readable (build_page main_titles (recorded_specs w main_files)) /\
  stdout (fst r)
  = (stdout w ++ status_lines w main_files
       ++ [summary_line main_files "index.html";
           "🎉 合并完成！请在浏览器中打开 index.html 查看结果。";
           "📊 共合并了 3 个可视化图表"])%list /\
  heap (fst r) (next_loc w) = main_titles.
Proof.
  intros Hall Hwr. cbv zeta. rewrite main_unfold.
  destruct (merge_some_ok main_files main_output (next_loc w) (main_start w)
              (recoverable_items w main_files Hall) Hwr)
    as (w1 & -> & Hdone).
  pose proof (completed_page _ _ _ _ _ Hdone) as Hpage.
  destruct Hdone as (_ & Hout & Ha & _).
  cbn [titles_before titles_loc main_start set_heap heap] in Hpage, Ha.
  rewrite Nat.eqb_refl in Hpage, Ha.
  cbn [fst set_stdout files heap stdout]. repeat split.
  - exact Hpage.
  - rewrite Hout, <- !app_assoc. reflexivity.
  - exact Ha.
Qed.

(** X15.  When, inside the entry point, a document read raises something
    other than [FileNotFoundError], or [index.html] cannot be opened for
    writing, the files are left exactly as they were and the last line
    printed is the error line; the lines before it are status lines, so
    neither the summary nor a closing line is printed. *)
Theorem main_reports_failure (w : world) (e : pyexn) :
  run_outcome w main_files "index.html" = Raise e ->
  let r := main describe w in
  files (fst r) = files w /\
  exists k msg,
    stdout (fst r)
    = (stdout w ++ firstn k (status_lines w main_files)
         ++ [("❌ 发生错误: " ++ msg)%string])%list.
Proof.
  intros Hfail. cbv zeta. rewrite main_unfold.
  pose proof (merge_some_outcome main_files main_output (next_loc w)
                (main_start w)) as Hsnd.
  assert (Hsame : run_outcome (main_start w) main_files main_output
                  = run_outcome w main_files "index.html").
  { unfold run_outcome.
    now rewrite (first_failure_ext (main_start w) w main_files). }
  rewrite Hsame, Hfail in Hsnd.
  pose proof (merge_some_failed main_files main_output (next_loc w)
                (main_start w)) as Hworld.
  cbv zeta in Hworld.
  destruct (merge_html_files main_files main_output (Some (next_loc w))
              (main_start w)) as [w1 o].
  cbn [fst snd] in Hsnd, Hworld. subst o.
  destruct Hworld as (Hf & k & Hout); [discriminate|].
  cbn [fst set_stdout files stdout]. split; [exact Hf|].
  exists k, (describe w1 e). rewrite Hout, <- app_assoc. reflexivity.
Qed.

End EntryPoint.

(** ** The further statements on the sample world *)

Section MoreSamples.

Lemma sample_a_has_pattern : pattern_occurs sample_a.
Proof.
  exists ("<script>" ++ nl ++ "  "), (dq ++ "a" ++ dq ++ ": 1"),
    (nl ++ "</script>").
  reflexivity.
Defined.

Lemma extract_spec_first_assignment_wins_witness :
  pattern_occurs sample_a /\
  extract_spec (sample_a ++ sample_b) = extract_spec sample_a.
Proof.
  split; [exact sample_a_has_pattern|].
  exact (extract_spec_first_assignment_wins sample_a sample_b
           sample_a_has_pattern).
Defined.

Lemma extract_spec_needs_both_ends_witness :
  ~ occurs_in "};" "var spec = {unfinished" /\
  extract_spec "var spec = {unfinished" = "{}".
Proof.
  assert (H : ~ occurs_in "};" "var spec = {unfinished")
    by (apply occursb_false; reflexivity).
  split; [exact H|].
  exact (extract_spec_needs_both_ends "var spec = {unfinished"
           (or_intror H)).
Defined.

Lemma fragments_of_distinct_positions_differ_witness :
  0 <> 10 /\ render_call 0 <> render_call 10.
Proof.
  assert (H : 0 <> 10) by discriminate.
  split; [exact H|].
  exact (proj2 (proj2 (fragments_of_distinct_positions_differ
                         0 10 EmptyString EmptyString EmptyString EmptyString
                         H))).
Defined.

Lemma sample_run_returns : sample_run = (fst sample_run, Ret tt).
Proof. reflexivity. Defined.

Lemma style_selectors_are_shifted_witness :
  sample_run = (fst sample_run, Ret tt) /\
  exists blocks : list string, length blocks = length sample_paths.
Proof.
  split; [exact sample_run_returns|].
  destruct (style_selectors_are_shifted
              sample_world (fst sample_run) sample_paths "index.html"
              (Some 0) sample_run_returns)
    as (blocks & rest & _ & Hlen & _).
  now exists blocks.
Defined.

Lemma completed_call_frame_witness :
  sample_run = (fst sample_run, Ret tt) /\
  (forall p, p <> "index.html" ->
             files (fst sample_run) p = files sample_world p).
Proof.
  split; [exact sample_run_returns|].
  exact (proj1 (completed_call_frame
                  sample_world (fst sample_run) sample_paths "index.html"
                  (Some 0) sample_run_returns)).
Defined.

Lemma titles_list_after_call_witness :
  length ["a.html"] <= length (heap sample_world 0) /\
  heap (fst (merge_html_files ["a.html"] "index.html" (Some 0)
               sample_world)) 0
  = heap sample_world 0.
Proof.
  assert (H : length ["a.html"] <= length (heap sample_world 0))
    by (cbn; lia).
  split; [exact H|].
  exact (proj2 (titles_list_after_call
                  sample_world ["a.html"] "index.html" 0) H).
Defined.

Lemma first_unreadable_document_decides_witness :
  (forall q, In q ["a.html"; "missing.html"] ->
             recoverable (files sample_world q) = true) /\
  files sample_world "locked.html" = Fails PermissionError /\
  exists w',
    merge_html_files (["a.html"; "missing.html"] ++ "locked.html" :: ["b.html"])
                     "index.html" None sample_world
    = (w', Raise PermissionError) /\
    files w' = files sample_world /\
    stdout w'
    = (stdout sample_world
         ++ status_lines sample_world ["a.html"; "missing.html"])%list.
Proof.
  assert (H : forall q, In q ["a.html"; "missing.html"] ->
                        recoverable (files sample_world q) = true).
  { intros q [<- | [<- | []]]; reflexivity. }
  split; [exact H|]. split; [reflexivity|].
  exact (first_unreadable_document_decides
           sample_world "index.html" None
           ["a.html"; "missing.html"] "locked.html" ["b.html"]
           PermissionError H eq_refl eq_refl).
Defined.


Lemma sample_paths_recoverable (w : world) :
  files w = sample_files ->
  forall q, In q sample_paths -> recoverable (files w q) = true.
Proof.
  intros -> q [<- | [<- | [<- | []]]]; reflexivity.
Defined.

Lemma write_fault_after_all_reads_witness :
  (forall q, In q sample_paths ->
             recoverable (files sample_readonly q) = true) /\
  write_fault sample_readonly "index.html" = Some PermissionError /\
  exists w',
    merge_html_files sample_paths "index.html" (Some 0) sample_readonly
    = (w', Raise PermissionError) /\
    files w' = files sample_readonly /\
    stdout w'
    = (stdout sample_readonly
         ++ status_lines sample_readonly sample_paths)%list.
Proof.
  split; [exact (sample_paths_recoverable sample_readonly eq_refl)|].
  split; [reflexivity|].
  exact (write_fault_after_all_reads
           sample_readonly sample_paths "index.html" (Some 0)
           PermissionError
           (sample_paths_recoverable sample_readonly eq_refl) eq_refl).
Defined.

Lemma main_files_missing (w : world) :
  files w = sample_files ->
  forall q, In q main_files -> recoverable (files w q) = true.
Proof.
  intros -> q [<- | [<- | [<- | []]]]; reflexivity.
Defined.

Lemma main_writes_dashboard_witness :
  (forall q, In q main_files -> recoverable (files sample_world q) = true) /\
  write_fault sample_world "index.html" = None /\
  heap (fst (main sample_describe sample_world)) (next_loc sample_world)
  = main_titles.
Proof.
  split; [exact (main_files_missing sample_world eq_refl)|].
  split; [reflexivity|].
  exact (proj2 (proj2 (main_writes_dashboard
                         sample_describe sample_world
                         (main_files_missing sample_world eq_refl)
                         eq_refl))).
Defined.

Lemma main_reports_failure_witness :
  run_outcome sample_readonly main_files "index.html"
  = Raise PermissionError /\
  files (fst (main sample_describe sample_readonly))
  = files sample_readonly.
Proof.
  split; [reflexivity|].
  exact (proj1 (main_reports_failure
                  sample_describe sample_readonly PermissionError eq_refl)).
Defined.

Example main_on_sample_readonly :
  snd (main sample_describe sample_readonly) = Ret tt /\
  stdout (fst (main sample_describe sample_readonly))
  = [ "✗ 警告: 找不到文件 michigan_choropleth.html";
      "✗ 警告: 找不到文件 michigan_choropleth2.html";
      "✗ 警告: 找不到文件 expenditure_contribution_dashboard.html";
      "❌ 发生错误: Permission denied" ].
Proof. split; reflexivity. Qed.

End MoreSamples.
